(** * Skyline Assistant: token lifecycle, client pool and provider wrappers

    A shallow embedding of the Google API integration service
    ([src/services/googleApiService.js]), the OAuth consent handler
    ([src/config/passport.js]) with the part of the user schema it goes
    through ([src/models/User.js]), and the two controllers that the
    specification talks about (task toggle, Google disconnect), with the
    fallback cache and rate limiter of [src/unnamed/part_003].

    Conventions of the embedding:
    - the process-wide state (MongoDB user collection, token cache, client
      pool, the OAuth2 client objects, [this.oauth2Client]) is one [World]
      record threaded through a state-and-exception monad [M];
    - remote services (token endpoint, Gmail, Tasks) are oracles collected
      in a [Provider] record; every call is appended to the world's [log];
    - [Date.now()] is the world's [now]; one operation runs at one instant.
      Where the code stores two readings side by side ([updateUserTokens])
      the readings are arguments of their own;
    - database calls are served in the order in which they are issued; they
      fail only where the schema or a unique index refuses a document;
      provider calls may fail;
    - a string is a sequence of code units below 256. *)

From stdpp Require Import gmap strings list fin_maps pretty.
From Stdlib Require Import ZArith Lia Ascii.

Open Scope string_scope.
Open Scope list_scope.

(** ** JavaScript values *)

(** A JS number as far as the code needs it: an integer or [NaN]. *)
Inductive Num :=
  | NaN
  | Fin (z : Z).

(** Values stored in dynamically built objects (update documents, request
    bodies). *)
Inductive JsVal :=
  | JUndefined
  | JNull
  | JStr (s : string)
  | JNum (z : Z)
  | JDate (ms : Z).

(** An object literal: keys in insertion order, no key twice. *)
Definition Obj := list (string * JsVal).

Module Js.

(** Truthiness of an optional string: [undefined] and [""] are falsy. *)
Definition truthy_str (o : option string) : bool :=
  match o with
  | Some s => negb (String.eqb s "")
  | None => false
  end.

(** [a || b] on optional strings. *)
Definition or_str (a b : option string) : option string :=
  if truthy_str a then a else b.

(** [n || d] on an optional number: [undefined] and [0] are falsy. *)
Definition or_num (n : option Z) (d : Z) : Z :=
  match n with
  | Some z => if (z =? 0)%Z then d else z
  | None => d
  end.

(** [a < b] on numbers; any comparison with [NaN] is false. *)
Definition lt (a b : Num) : bool :=
  match a, b with
  | Fin x, Fin y => (x <? y)%Z
  | _, _ => false
  end.

(** [Math.min(a, b)]. *)
Definition min (a b : Num) : Num :=
  match a, b with
  | Fin x, Fin y => Fin (Z.min x y)
  | _, _ => NaN
  end.

(** [a - b]. *)
Definition sub (a b : Num) : Num :=
  match a, b with
  | Fin x, Fin y => Fin (x - y)
  | _, _ => NaN
  end.

(** [new Date(d).getTime()] for a date or millisecond count that may be
    [undefined]. *)
Definition getTime (d : option Z) : Num :=
  match d with
  | Some ms => Fin ms
  | None => NaN
  end.

(** [arr.slice(0, end)]: [NaN] counts as 0, a negative [end] counts from
    the back. *)
Definition slice0 {A} (end_ : Num) (arr : list A) : list A :=
  match end_ with
  | NaN => []
  | Fin e =>
      if (e <? 0)%Z then take (Z.to_nat (Z.of_nat (length arr) + e)) arr
      else take (Z.to_nat e) arr
  end.

(** [obj[k]]. *)
Fixpoint get (k : string) (o : Obj) : option JsVal :=
  match o with
  | [] => None
  | (k', v) :: o' => if String.eqb k k' then Some v else get k o'
  end.

(** [obj[k] = v]: overwrite in place or append. *)
Fixpoint set (k : string) (v : JsVal) (o : Obj) : Obj :=
  match o with
  | [] => [(k, v)]
  | (k', v') :: o' =>
      if String.eqb k k' then (k', v) :: o' else (k', v') :: set k v o'
  end.

(** [k in obj]. *)
Definition has (k : string) (o : Obj) : bool :=
  match get k o with Some _ => true | None => false end.

(** [{ ...a, ...b }]. *)
Definition spread (a b : Obj) : Obj :=
  fold_left (λ o kv, set kv.1 kv.2 o) b a.

(** An optional string as a property value. *)
Definition of_str (o : option string) : JsVal :=
  match o with
  | Some s => JStr s
  | None => JUndefined
  end.

(** [s.toLowerCase()]: below 256 the capital letters are A-Z and the
    Latin-1 capitals 192-222 without the multiplication sign 215. *)
Definition lower_unit (c : ascii) : ascii :=
  let n := nat_of_ascii c in
  if ((65 <=? n) && (n <=? 90)
      || (192 <=? n) && (n <=? 222) && negb (n =? 215))%nat
  then ascii_of_nat (n + 32) else c.

Fixpoint toLowerCase (s : string) : string :=
  match s with
  | EmptyString => EmptyString
  | String c s => String (lower_unit c) (toLowerCase s)
  end.

(** [s.trim()]: below 256 the white space and line terminators are 9-13,
    32 and 160. *)
Definition is_space (c : ascii) : bool :=
  let n := nat_of_ascii c in
  ((9 <=? n) && (n <=? 13) || (n =? 32) || (n =? 160))%nat.

Fixpoint trimStart (s : string) : string :=
  match s with
  | EmptyString => EmptyString
  | String c s' => if is_space c then trimStart s' else s
  end.

Fixpoint trimEnd (s : string) : string :=
  match s with
  | EmptyString => EmptyString
  | String c s' =>
      match trimEnd s' with
      | EmptyString => if is_space c then EmptyString else String c EmptyString
      | rest => String c rest
      end
  end.

Definition trim (s : string) : string := trimEnd (trimStart s).

End Js.

(** A JS [Map] with string keys: insertion ordered, one entry per key. *)
Module JsMap.

Section Ops.
Context {V : Type}.

Fixpoint get (k : string) (m : list (string * V)) : option V :=
  match m with
  | [] => None
  | (k', v) :: m' => if String.eqb k k' then Some v else get k m'
  end.

Definition has (k : string) (m : list (string * V)) : bool :=
  match get k m with Some _ => true | None => false end.

Fixpoint set (k : string) (v : V) (m : list (string * V)) : list (string * V) :=
  match m with
  | [] => [(k, v)]
  | (k', v') :: m' =>
      if String.eqb k k' then (k', v) :: m' else (k', v') :: set k v m'
  end.

Fixpoint delete (k : string) (m : list (string * V)) : list (string * V) :=
  match m with
  | [] => []
  | (k', v') :: m' =>
      if String.eqb k k' then m' else (k', v') :: delete k m'
  end.

Definition size (m : list (string * V)) : nat := length m.

(** [m.keys().next().value] *)
Definition first_key (m : list (string * V)) : option string :=
  match m with
  | [] => None
  | (k, _) :: _ => Some k
  end.

(** [m.delete(k)] where [k] may be [undefined]. *)
Definition delete_opt (k : option string) (m : list (string * V)) : list (string * V) :=
  match k with
  | Some k => delete k m
  | None => m
  end.
End Ops.

End JsMap.

(** Regular expressions as the schema uses them: a pattern anchored at both
    ends, tested against a whole string. *)
Module RegExp.

(** A character class: [\w], one character, or a bracket list. *)
Inductive Class :=
  | Word
  | Lit (c : ascii)
  | OneOf (cs : list ascii).

Definition member (k : Class) (c : ascii) : bool :=
  match k with
  | Word =>
      let n := nat_of_ascii c in
      ((48 <=? n) && (n <=? 57) || (65 <=? n) && (n <=? 90)
       || (n =? 95) || (97 <=? n) && (n <=? 122))%nat
  | Lit c' => Ascii.eqb c c'
  | OneOf cs => existsb (Ascii.eqb c) cs
  end.

Inductive t :=
  | Empty
  | Unit (k : Class)
  | Seq (a b : t)
  | Alt (a b : t)
  | Star (a : t).

#[global] Instance Class_eq_dec : EqDecision Class.
Proof. solve_decision. Defined.

#[global] Instance t_eq_dec : EqDecision t.
Proof. solve_decision. Defined.

(** [a+] and [a?] *)
Definition plus (a : t) : t := Seq a (Star a).
Definition opt (a : t) : t := Alt a Empty.

Fixpoint nullable (r : t) : bool :=
  match r with
  | Empty => true
  | Unit _ => false
  | Seq a b => nullable a && nullable b
  | Alt a b => nullable a || nullable b
  | Star _ => true
  end.

(** What may remain to be matched once [r] has taken the character [c]. *)
Fixpoint after (c : ascii) (r : t) : list t :=
  match r with
  | Empty => []
  | Unit k => if member k c then [Empty] else []
  | Seq a b =>
      ((λ a', Seq a' b) <$> after c a) ++ (if nullable a then after c b else [])
  | Alt a b => after c a ++ after c b
  | Star a => (λ a', Seq a' (Star a)) <$> after c a
  end.

Fixpoint run (rs : list t) (s : string) : bool :=
  match s with
  | EmptyString => existsb nullable rs
  | String c s => run (remove_dups (rs ≫= after c)) s
  end.

(** [/^r$/.test(s)] *)
Definition test (r : t) (s : string) : bool := run [r] s.

(** The strings a pattern matches, as the language definition has it. *)
Inductive Matches : t → string → Prop :=
  | MEmpty : Matches Empty ""
  | MUnit k c : member k c = true → Matches (Unit k) (String c "")
  | MSeq a b s1 s2 : Matches a s1 → Matches b s2 → Matches (Seq a b) (s1 +:+ s2)
  | MAltL a b s : Matches a s → Matches (Alt a b) s
  | MAltR a b s : Matches b s → Matches (Alt a b) s
  | MStar0 a : Matches (Star a) ""
  | MStarS a s1 s2 :
      Matches a s1 → Matches (Star a) s2 → Matches (Star a) (s1 +:+ s2).

End RegExp.

(** ** Data model *)

(** The token object handed to the OAuth2 client, kept in the token cache
    and returned by the token endpoint. *)
Record Tokens := mkTokens {
  access_token : option string;
  refresh_token : option string;
  expiry_date : option Z;
  expires_in : option Z;
}.

(** The user schema of [src/models/User.js]. *)
Module UserSchema.

(** [user.googleTokens] *)
Record GoogleTokens := mkGoogleTokens {
  accessToken : option string;
  refreshToken : option string;
  accessTokenExpiry : option Z;
  expiryDate : option Z;
  scope : list string;
}.

(** The user document, with the fields the modelled code touches. *)
Record User := mkUser {
  _id : string;
  name : string;
  email : string;
  googleId : option string;
  profilePicture : option string;
  googleTokens : option GoogleTokens;
  lastLogin : option Z;
}.

End UserSchema.
Import UserSchema.

(** Entry of the fallback token cache: [{ value, expires }]. *)
Record CacheItem := mkCacheItem {
  value : Tokens;
  expires : Z;
}.

(** A [google.auth.OAuth2] object; only its credentials are state. *)
Record Client := mkClient {
  credentials : Tokens;
}.

(** An Express request as far as the service looks at it: [req.user]. *)
Record Req := mkReq {
  user : option User;
}.

(** JS errors are compared by message.  The two errors of the database
    layer, whose messages are composed by Mongoose and the driver, are
    compared by what they report: the validator messages by path
    ([err.errors]), and the fact that a unique index refused a document
    (E11000). *)
Inductive Err :=
  | Error (message : string)
  | ValidationError (errors : list (string * string))
  | DuplicateKey.

(** A Gmail message reference and a fetched message. *)
Record MessageRef := mkMessageRef {
  msg_id : string;
}.

Record Email := mkEmail {
  email_id : string;
  snippet : string;
}.

(** A Google Tasks task resource. *)
Record Task := mkTask {
  id : string;
  title : option string;
  notes : option string;
  status : option string;
  due : option string;
  parent : option string;
  completed : option string;
}.

(** Calls that leave the process. *)
Inductive Event :=
  | EvFindById (userId : string)
  | EvFindOne (field val : string)
  | EvFindByIdAndUpdate (userId : string)
  | EvSave (userId : string)
  | EvCreate (userId : string)
  | EvRefreshAccessToken (rt : string)
  | EvMessagesList (q : string) (maxResults : Num)
  | EvMessagesGet (msgId : string)
  | EvTasksList (tasklist : string) (maxResults : Z)
  | EvTasksUpdate (tasklist task : string) (requestBody : Obj).

(** The remote side. *)
Record Provider := mkProvider {
  (** token endpoint, keyed by the refresh token presented *)
  token_endpoint : string → Err + Tokens;
  (** [gmail.users.messages.list]: [data.messages] may be missing *)
  messages_list : string → Num → Err + option (list MessageRef);
  (** [gmail.users.messages.get] *)
  messages_get : string → Err + Email;
  (** [tasks.tasks.list]: [data.items] may be missing *)
  tasks_list : string → Err + option (list Task);
  (** [tasks.tasks.update] *)
  tasks_update : string → string → Obj → Err + Task;
  (** [new Date(ms).toISOString()] *)
  toISOString : Z → string;
}.

(** ** Process state *)

Record World := mkWorld {
  (** the users collection, by [_id] *)
  store : gmap string User;
  (** [tokenCache.cache] *)
  cache : gmap string CacheItem;
  (** [oauthClientPool]: key to client object *)
  oauthClientPool : list (string * nat);
  (** the OAuth2 client objects, by address *)
  heap : gmap nat Client;
  (** [this.oauth2Client] of the service singleton *)
  oauth2Client : option nat;
  (** live request objects, by address *)
  reqs : gmap nat Req;
  log : list Event;
  now : Z;
}.

Definition set_store (f : gmap string User → gmap string User) (w : World) : World :=
  mkWorld (f (store w)) (cache w) (oauthClientPool w) (heap w) (oauth2Client w)
          (reqs w) (log w) (now w).

Definition set_cache (f : gmap string CacheItem → gmap string CacheItem) (w : World) : World :=
  mkWorld (store w) (f (cache w)) (oauthClientPool w) (heap w) (oauth2Client w)
          (reqs w) (log w) (now w).

Definition set_pool (f : list (string * nat) → list (string * nat)) (w : World) : World :=
  mkWorld (store w) (cache w) (f (oauthClientPool w)) (heap w) (oauth2Client w)
          (reqs w) (log w) (now w).

Definition set_heap (f : gmap nat Client → gmap nat Client) (w : World) : World :=
  mkWorld (store w) (cache w) (oauthClientPool w) (f (heap w)) (oauth2Client w)
          (reqs w) (log w) (now w).

Definition set_oauth2Client (c : option nat) (w : World) : World :=
  mkWorld (store w) (cache w) (oauthClientPool w) (heap w) c
          (reqs w) (log w) (now w).

Definition set_reqs (f : gmap nat Req → gmap nat Req) (w : World) : World :=
  mkWorld (store w) (cache w) (oauthClientPool w) (heap w) (oauth2Client w)
          (f (reqs w)) (log w) (now w).

Definition emit (e : Event) (w : World) : World :=
  mkWorld (store w) (cache w) (oauthClientPool w) (heap w) (oauth2Client w)
          (reqs w) (log w ++ [e]) (now w).

(** ** The monad: state plus exceptions *)

Inductive Result (A : Type) :=
  | Ok (a : A)
  | Throw (e : Err).
Arguments Ok {A} a.
Arguments Throw {A} e.

Definition M (A : Type) : Type := World → Result A * World.

#[global] Instance M_ret : MRet M := λ A a w, (Ok a, w).

#[global] Instance M_bind : MBind M := λ A B f m w,
  match m w with
  | (Ok a, w') => f a w'
  | (Throw e, w') => (Throw e, w')
  end.

Definition throw {A} (e : Err) : M A := λ w, (Throw e, w).

(** [try { m } catch (error) { h error }] *)
Definition try_catch {A} (m : M A) (h : Err → M A) : M A := λ w,
  match m w with
  | (Ok a, w') => (Ok a, w')
  | (Throw e, w') => h e w'
  end.

Definition gets {A} (f : World → A) : M A := λ w, (Ok (f w), w).

Definition modify (f : World → World) : M unit := λ w, (Ok tt, f w).

(** Awaiting a provider call: the event is logged, a rejection throws. *)
Definition call {A} (e : Event) (r : Err + A) : M A := λ w,
  match r with
  | inl err => (Throw err, emit e w)
  | inr a => (Ok a, emit e w)
  end.

(** ** The token cache ([googleApiService.js], lines 11-30)

    The object the service falls back to; the cache of
    [src/middleware/cache.js] is used through the same three calls. *)

Module tokenCache.

Definition set (key : string) (v : Tokens) (ttl : Z) : M unit := λ w,
  let expires :=
    (if ttl =? 0 then now w + 3600000 else now w + ttl * 1000)%Z in
  (Ok tt, set_cache (insert key (mkCacheItem v expires)) w).

Definition get (key : string) : M (option Tokens) := λ w,
  match cache w !! key with
  | Some item =>
      if (now w <? expires item)%Z then (Ok (Some (value item)), w)
      else (Ok None, set_cache (delete key) w)
  | None => (Ok None, w)
  end.

Definition del (key : string) : M unit :=
  modify (set_cache (delete key)).

End tokenCache.

(** ** The users collection (Mongoose calls used by the code) *)

Module UserModel.

(** [User.findById(id)...lean()] *)
Definition findById (userId : string) : M (option User) := λ w,
  (Ok (store w !! userId), emit (EvFindById userId) w).

(** The empty nested object a dotted [$set] creates when needed. *)
Definition noTokens : GoogleTokens := mkGoogleTokens None None None None [].

Definition as_str (v : JsVal) : option string :=
  match v with JStr s => Some s | _ => None end.

Definition as_date (v : JsVal) : option Z :=
  match v with JDate ms => Some ms | JNum ms => Some ms | _ => None end.

(** One [$set] of a dotted path.  Mongoose takes a key whose value is
    [undefined] out of the update, so the stored value stays. *)
Definition set_path (path : string) (v : JsVal) (u : User) : User :=
  let gt := default noTokens (googleTokens u) in
  let put gt' :=
    mkUser (_id u) (name u) (email u) (googleId u) (profilePicture u)
           (Some gt') (lastLogin u) in
  match v with
  | JUndefined => u
  | _ =>
      if String.eqb path "googleTokens.accessToken" then
        put (mkGoogleTokens (as_str v) (refreshToken gt) (accessTokenExpiry gt)
                            (expiryDate gt) (scope gt))
      else if String.eqb path "googleTokens.refreshToken" then
        put (mkGoogleTokens (accessToken gt) (as_str v) (accessTokenExpiry gt)
                            (expiryDate gt) (scope gt))
      else if String.eqb path "googleTokens.accessTokenExpiry" then
        put (mkGoogleTokens (accessToken gt) (refreshToken gt) (as_date v)
                            (expiryDate gt) (scope gt))
      else if String.eqb path "googleTokens.expiryDate" then
        put (mkGoogleTokens (accessToken gt) (refreshToken gt) (accessTokenExpiry gt)
                            (as_date v) (scope gt))
      else u
  end.

Definition apply_update (updateData : Obj) (u : User) : User :=
  fold_left (λ u kv, set_path kv.1 kv.2 u) updateData u.

(** [User.findByIdAndUpdate(id, updateData, { new: true })] *)
Definition findByIdAndUpdate (userId : string) (updateData : Obj) : M (option User) := λ w,
  match store w !! userId with
  | Some u =>
      let u' := apply_update updateData u in
      (Ok (Some u'), emit (EvFindByIdAndUpdate userId) (set_store (insert userId u') w))
  | None => (Ok None, emit (EvFindByIdAndUpdate userId) w)
  end.

(** [User.findByIdAndUpdate(id, { $unset: { googleId, googleTokens,
    profilePicture } }, { new: true })] *)
Definition unset_google (u : User) : User :=
  mkUser (_id u) (name u) (email u) None None None (lastLogin u).

Definition findByIdAndUnsetGoogle (userId : string) : M (option User) := λ w,
  match store w !! userId with
  | Some u =>
      let u' := unset_google u in
      (Ok (Some u'), emit (EvFindByIdAndUpdate userId) (set_store (insert userId u') w))
  | None => (Ok None, emit (EvFindByIdAndUpdate userId) w)
  end.

(** The filters the code queries with.  Mongoose casts a filter by the
    schema: an e-mail address is compared in lower case. *)
Inductive Filter :=
  | ByGoogleId (googleId : string)
  | ByEmail (email : string).

Definition selects (q : Filter) (u : User) : bool :=
  match q with
  | ByGoogleId g => bool_decide (googleId u = Some g)
  | ByEmail e => String.eqb (email u) (Js.toLowerCase e)
  end.

Definition filter_event (q : Filter) : Event :=
  match q with
  | ByGoogleId g => EvFindOne "googleId" g
  | ByEmail e => EvFindOne "email" e
  end.

(** [User.findOne(filter)] *)
Definition findOne (q : Filter) : M (option User) := λ w,
  (Ok (head (filter (λ u, selects q u = true) (map_to_list (store w)).*2)),
   emit (filter_event q) w).

(** [user.save()] of a document the handler has loaded and changed in its
    Google fields only; the loaded document is taken to pass the schema's
    validators, as one that went in through the schema does. *)
Definition save (u : User) : M unit :=
  modify (λ w, emit (EvSave (_id u)) (set_store (insert (_id u) u) w)).

(** The [match] of the [email] path ([src/models/User.js], line 18):
    [/^\w+([.-]?\w+)*@\w+([.-]?\w+)*(\.\w{2,3})+$/] *)
Definition emailPattern : RegExp.t :=
  let w := RegExp.Unit RegExp.Word in
  let lit c := RegExp.Unit (RegExp.Lit c) in
  let more :=
    RegExp.Star (RegExp.Seq (RegExp.opt (RegExp.Unit (RegExp.OneOf ["."; "-"]%char)))
                            (RegExp.plus w)) in
  RegExp.Seq (RegExp.plus w)
    (RegExp.Seq more
       (RegExp.Seq (lit "@"%char)
          (RegExp.Seq (RegExp.plus w)
             (RegExp.Seq more
                (RegExp.plus (RegExp.Seq (lit "."%char)
                               (RegExp.Seq w (RegExp.Seq w (RegExp.opt w))))))))).

(** The setters of the schema: [name] is trimmed, [email] lowercased. *)
Definition cast (doc : User) : User :=
  mkUser (_id doc) (Js.trim (name doc)) (Js.toLowerCase (email doc)) (googleId doc)
         (profilePicture doc) (googleTokens doc) (lastLogin doc).

(** The validators of the schema, on the cast document: [required] refuses
    the empty string, [match] lets it pass. *)
Definition validate_name (name : string) : list (string * string) :=
  if String.eqb name "" then [("name", "Name is required")]
  else if (50 <? String.length name)%nat
       then [("name", "Name cannot be more than 50 characters")]
       else [].

Definition validate_email (email : string) : list (string * string) :=
  if String.eqb email "" then [("email", "Email is required")]
  else if RegExp.test emailPattern email then []
       else [("email", "Please provide a valid email")].

Definition validate (doc : User) : list (string * string) :=
  validate_name (name doc) ++ validate_email (email doc).

(** The unique indexes.  A stored user clashes with a document that has its
    [email], or its [googleId] where both have one; the collection is keyed
    by [_id], so an [_id] in use clashes as well. *)
Definition clashes (doc u : User) : bool :=
  String.eqb (email u) (email doc)
  || match googleId u, googleId doc with
     | Some g, Some g' => String.eqb g g'
     | _, _ => false
     end.

Definition duplicate (doc : User) (users : gmap string User) : bool :=
  bool_decide (is_Some (users !! _id doc))
  || existsb (clashes doc) (map_to_list users).*2.

(** [User.create(doc)]: the document is cast and validated; one that does
    not validate is not sent to the database. *)
Definition create (doc : User) : M User := λ w,
  let doc := cast doc in
  match validate doc with
  | [] =>
      if duplicate doc (store w)
      then (Throw DuplicateKey, emit (EvCreate (_id doc)) w)
      else (Ok doc, emit (EvCreate (_id doc)) (set_store (insert (_id doc) doc) w))
  | errors => (Throw (ValidationError errors), w)
  end.

End UserModel.

(** ** The API integration service ([src/services/googleApiService.js]) *)

(** The error [refreshToken] raises when no refresh token is on file
    (line 227). *)
Definition noRefreshToken : Err :=
  Error "No refresh token available - user needs to re-authenticate".

(** The error every failing [refreshToken] ends with (line 264). *)
Definition refreshFailed : Err :=
  Error "Token refresh failed - user may need to re-authenticate".

Module GoogleApiService.

(** [a || b] on two dates read from a lean document: a date object is
    truthy whenever it is there. *)
Definition or_date (a b : option Z) : option Z :=
  match a with
  | Some d => Some d
  | None => b
  end.

(** [client.setCredentials(tokens)] *)
Definition setCredentials (client : nat) (tokens : Tokens) : M unit :=
  modify (set_heap (insert client (mkClient tokens))).

(** [new google.auth.OAuth2(...)]: a new object with empty credentials. *)
Definition newOAuth2 : M nat := λ w,
  let c := fresh (dom (heap w)) in
  (Ok c, set_heap (insert c (mkClient (mkTokens None None None None))) w).

(** [getOAuthClient(userId, tokens)], lines 42-95.  The ["tokens"] listener
    registered on a new client runs under the SDK's control, see
    [refreshAccessToken]; its body is [onTokensWith] below. *)
Definition getOAuthClient (userId : string) (tokens : option Tokens) : M nat :=
  let cacheKey := "oauth_" +:+ userId in
  pool ← gets oauthClientPool;
  match JsMap.get cacheKey pool with
  | Some client =>
      _ ← match tokens with
          | Some t => setCredentials client t
          | None => mret tt
          end;
      mret client
  | None =>
      oauth2Client ← newOAuth2;
      _ ← match tokens with
          | Some t => setCredentials oauth2Client t
          | None => mret tt
          end;
      size ← gets (λ w, JsMap.size (oauthClientPool w));
      _ ← (if (100 <? size)%nat
           then modify (set_pool (λ m, JsMap.delete_opt (JsMap.first_key m) m))
           else mret tt);
      _ ← modify (set_pool (JsMap.set cacheKey oauth2Client));
      mret oauth2Client
  end.

Section WithProvider.
Variable P : Provider.

(** [syncTokensWithSession(userId, req)], lines 198-216. *)
Definition syncTokensWithSession (userId : string) (req : option nat) : M unit :=
  try_catch
    (match req with
     | Some r =>
         rq ← gets (λ w, reqs w !! r);
         match rq ≫= user with
         | Some u =>
             if negb (String.eqb (_id u) "") && String.eqb (_id u) userId then
               updatedUser ← UserModel.findById userId;
               match updatedUser with
               | Some u' => modify (set_reqs (insert r (mkReq (Some u'))))
               | None => mret tt
               end
             else mret tt
         | None => mret tt
         end
     | None => mret tt
     end)
    (λ _, mret tt).

(** The [updateData] document of [updateUserTokens], lines 158-174; [t1]
    and [t2] are the readings of [Date.now()] at lines 161 and 165. *)
Definition updateData (t1 t2 : Z) (tokens : Tokens) : Obj :=
  let updateData : Obj :=
    [ ("googleTokens.accessToken", Js.of_str (access_token tokens));
      ("googleTokens.accessTokenExpiry",
       JDate (t1 + Js.or_num (expires_in tokens) 3600 * 1000));
      ("googleTokens.expiryDate",
       JDate (t2 + Js.or_num (expires_in tokens) 3600 * 1000)) ] in
  if Js.truthy_str (refresh_token tokens)
  then Js.set "googleTokens.refreshToken"
              (Js.of_str (refresh_token tokens)) updateData
  else updateData.

(** The body of [updateUserTokens], lines 156-195, with what it reads from
    outside spelled out: [t1], [t2] and [t3] are the readings of
    [Date.now()] at lines 161, 165 and 185; [tokens] is the token object as
    it reads before the first [await] (line 176), [later] the same object as
    it reads after it. *)
Definition updateUserTokensAt (t1 t2 t3 : Z) (userId : string) (tokens later : Tokens)
    (req : option nat) : M unit :=
  try_catch
    (_ ← UserModel.findByIdAndUpdate userId (updateData t1 t2 tokens);
     _ ← syncTokensWithSession userId req;
     let cacheTokens :=
       mkTokens (access_token later) (refresh_token later)
                (Some (t3 + Js.or_num (expires_in later) 3600 * 1000)%Z) None in
     tokenCache.set ("tokens_" +:+ userId) cacheTokens 3000)
    (λ error, throw error).

(** [updateUserTokens(userId, tokens, req)] at one instant, on a token
    object nobody else writes to. *)
Definition updateUserTokens (userId : string) (tokens : Tokens) (req : option nat) : M unit :=
  t ← gets now;
  updateUserTokensAt t t t userId tokens tokens req.

(** The listener of lines 72-92 on the event's token object: [newTokens]
    as it reads before the listener's first [await], [later] as it reads
    after it. *)
Definition onTokensWith (userId : string) (newTokens later : Tokens) : M unit :=
  try_catch
    (t ← gets now;
     _ ← updateUserTokensAt t t t userId newTokens later None;
     t ← gets now;
     let cacheTokens :=
       mkTokens (access_token later) (refresh_token later)
                (Some (Js.or_num (expiry_date later) (t + 3600000))) None in
     tokenCache.set ("tokens_" +:+ userId) cacheTokens 3000)
    (λ _, mret tt).

(** The listener on an event whose object nobody writes to. *)
Definition onTokens (userId : string) (newTokens : Tokens) : M unit :=
  onTokensWith userId newTokens newTokens.

(** What the SDK makes of an answer of the token endpoint at clock reading
    [t]: a truthy [expires_in] becomes [expiry_date] and is deleted. *)
Definition withExpiryDate (t : Z) (data : Tokens) : Tokens :=
  match expires_in data with
  | Some n =>
      if (n =? 0)%Z then data
      else mkTokens (access_token data) (refresh_token data)
                    (Some (t + n * 1000)%Z) None
  | None => data
  end.

(** [oauth2Client.refreshAccessToken()] of the SDK, on the client created
    for [userId].  The SDK presents the client's refresh token to the token
    endpoint and rejects when the endpoint does.  On an answer it emits
    ["tokens"] with the answer, which starts the listener registered at
    lines 72-92; it then writes the presented refresh token into the same
    object, makes the object the client's credentials and resolves to it.
    The listener has issued its database call by then and so is served
    before the caller's next one: it runs to its end here, reading the
    object after its first [await] as the SDK has left it. *)
Definition refreshAccessToken (userId : string) (client : nat) : M Tokens :=
  cl ← gets (λ w, heap w !! client);
  let presented := cl ≫= (λ c, refresh_token (credentials c)) in
  match presented with
  | Some rt =>
      if String.eqb rt "" then throw (Error "No refresh token is set.")
      else
        data ← call (EvRefreshAccessToken rt) (token_endpoint P rt);
        t ← gets now;
        let tokens := withExpiryDate t data in
        let credentials :=
          mkTokens (access_token tokens) presented (expiry_date tokens)
                   (expires_in tokens) in
        _ ← onTokensWith userId tokens credentials;
        _ ← setCredentials client credentials;
        mret credentials
  | None => throw (Error "No refresh token is set.")
  end.

(** [refreshToken(userId, req)], lines 219-268. *)
Definition refreshToken (userId : string) (req : option nat) : M Tokens :=
  try_catch
    (user ← UserModel.findById userId;
     match user ≫= googleTokens with
     | Some gt =>
         if Js.truthy_str (refreshToken gt) then
           oauth2Client ← getOAuthClient userId None;
           _ ← setCredentials oauth2Client
                 (mkTokens None (refreshToken gt) None None);
           credentials ← refreshAccessToken userId oauth2Client;
           let credentials :=
             if negb (Js.truthy_str (refresh_token credentials))
             then mkTokens (access_token credentials) (refreshToken gt)
                           (expiry_date credentials) (expires_in credentials)
             else credentials in
           _ ← updateUserTokens userId credentials req;
           _ ← setCredentials oauth2Client
                 (mkTokens (access_token credentials) (refresh_token credentials)
                           (expiry_date credentials) None);
           _ ← modify (set_oauth2Client (Some oauth2Client));
           mret credentials
         else throw noRefreshToken
     | None => throw noRefreshToken
     end)
    (λ _,
       _ ← tokenCache.del ("tokens_" +:+ userId);
       throw refreshFailed).

(** The first step of [setupClient], lines 100-128: the tokens from the
    cache, else from the store (and then cached for 50 minutes). *)
Definition loadTokens (userId : string) : M Tokens :=
  cached ← tokenCache.get ("tokens_" +:+ userId);
  match cached with
  | Some tokens => mret tokens
  | None =>
      user ← UserModel.findById userId;
      match user ≫= googleTokens with
      | Some gt =>
          if Js.truthy_str (accessToken gt) then
            let tokens :=
              mkTokens (accessToken gt) (UserSchema.refreshToken gt)
                       (or_date (accessTokenExpiry gt) (expiryDate gt)) None in
            _ ← tokenCache.set ("tokens_" +:+ userId) tokens 3000;
            mret tokens
          else
            throw (Error "User not found or no Google tokens available")
      | None =>
          throw (Error "User not found or no Google tokens available")
      end
  end.

(** [timeUntilExpiry] of lines 134-136, at clock reading [t]. *)
Definition timeUntilExpiry (tokens : Tokens) (t : Z) : Num :=
  Js.sub (Js.getTime (expiry_date tokens)) (Fin t).

(** [setupClient(userId, req)], lines 98-153. *)
Definition setupClient (userId : string) (req : option nat) : M (option nat) :=
  try_catch
    (tokens ← loadTokens userId;
     client ← getOAuthClient userId (Some tokens);
     _ ← modify (set_oauth2Client (Some client));
     t ← gets now;
     _ ← (if Js.lt (timeUntilExpiry tokens t) (Fin 300000)
          then _ ← refreshToken userId req; mret tt
          else mret tt);
     gets oauth2Client)
    (λ error, throw error).

(** The per-message fetch of [getEmails], lines 327-339: the details, or
    [null] when the fetch fails. *)
Definition fetchOne (message : MessageRef) : M (option Email) :=
  try_catch
    (d ← call (EvMessagesGet (msg_id message)) (messages_get P (msg_id message));
     mret (Some d))
    (λ _, mret None).

(** [getEmails(userId, query, maxResults)], lines 305-347. *)
Definition getEmails (userId query : string) (maxResults : Num) : M (list Email) :=
  try_catch
    (_ ← setupClient userId None;
     messages ← call (EvMessagesList query (Js.min maxResults (Fin 50)))
                     (messages_list P query (Js.min maxResults (Fin 50)));
     match messages with
     | None => mret []
     | Some messages =>
         emails ← mapM fetchOne (Js.slice0 maxResults messages);
         mret (omap (λ e : option Email, e) emails)
     end)
    (λ error, throw error).

(** [getTasks(userId, tasklistId, options)] with the default options,
    lines 512-540. *)
Definition getTasks (userId tasklistId : string) : M (list Task) :=
  try_catch
    (_ ← setupClient userId None;
     items ← call (EvTasksList tasklistId (Z.min 100 100))
                  (tasks_list P tasklistId);
     mret (default [] items))
    (λ error, throw error).

(** [updateTask(userId, taskId, taskData, tasklistId)], lines 564-590. *)
Definition updateTask (userId taskId : string) (taskData : Obj) (tasklistId : string) : M Task :=
  try_catch
    (_ ← setupClient userId None;
     let taskDataWithId := Js.spread [("id", JStr taskId)] taskData in
     call (EvTasksUpdate tasklistId taskId taskDataWithId)
          (tasks_update P tasklistId taskId taskDataWithId))
    (λ error, throw error).

End WithProvider.

End GoogleApiService.


(** ** The OAuth consent handler ([src/config/passport.js]) *)

(** The profile delivered by the consent flow. *)
Record Profile := mkProfile {
  profile_id : string;
  displayName : string;
  emails : list string;
  photos : list string;
}.

Definition googleScopes : list string :=
  [ "https://www.googleapis.com/auth/gmail.readonly";
    "https://www.googleapis.com/auth/gmail.send";
    "https://www.googleapis.com/auth/gmail.modify";
    "https://www.googleapis.com/auth/calendar.readonly";
    "https://www.googleapis.com/auth/calendar.events";
    "https://www.googleapis.com/auth/tasks";
    "https://www.googleapis.com/auth/tasks.readonly" ].

(** [profile.emails[0].value]; reading it off an empty list is a
    [TypeError]. *)
Definition firstEmail (profile : Profile) : M string :=
  match head (emails profile) with
  | Some e => mret e
  | None => throw (Error "Cannot read properties of undefined (reading 'value')")
  end.

Module Passport.

(** The verify callback, lines 24-110.  [done(null, user)] is [Ok user],
    [done(error, null)] is [Throw error]; [newId] is the [_id] the driver
    gives a created document.  Assigning an object to [user.googleTokens]
    replaces the nested document. *)
Definition verify (accessToken : string) (refreshToken : option string)
    (profile : Profile) (newId : string) : M User :=
  try_catch
    (mail ← firstEmail profile;
     user ← UserModel.findOne (UserModel.ByGoogleId (profile_id profile));
     match user with
     | Some user =>
         t ← gets now;
         let user :=
           mkUser (_id user) (name user) (email user) (googleId user)
                  (profilePicture user)
                  (Some (mkGoogleTokens (Some accessToken) refreshToken None
                                        (Some (t + 3600000)%Z) googleScopes))
                  (Some t) in
         _ ← UserModel.save user;
         mret user
     | None =>
         user ← UserModel.findOne (UserModel.ByEmail mail);
         match user with
         | Some user =>
             t ← gets now;
             let user :=
               mkUser (_id user) (name user) (email user) (Some (profile_id profile))
                      (head (photos profile))
                      (Some (mkGoogleTokens (Some accessToken) refreshToken None
                                            (Some (t + 3600000)%Z) googleScopes))
                      (Some t) in
             _ ← UserModel.save user;
             mret user
         | None =>
             t ← gets now;
             UserModel.create
               (mkUser newId (displayName profile) mail (Some (profile_id profile))
                       (head (photos profile))
                       (Some (mkGoogleTokens (Some accessToken) refreshToken None
                                             (Some (t + 3600000)%Z) googleScopes))
                       (Some t))
         end
     end)
    (λ error, throw error).

End Passport.

(** The second copy of the consent handler in the repository
    ([src/unnamed/part_006]), whose comments read "FIXED: Preserve existing
    refresh token if new one not provided". *)
Module PassportPreserving.

Definition verify (accessToken : string) (refreshToken : option string)
    (profile : Profile) (newId : string) : M User :=
  try_catch
    (mail ← firstEmail profile;
     user ← UserModel.findOne (UserModel.ByGoogleId (profile_id profile));
     match user with
     | Some user =>
         t ← gets now;
         let tokenData :=
           mkGoogleTokens (Some accessToken)
             (Js.or_str refreshToken (googleTokens user ≫= UserSchema.refreshToken))
             (Some (t + 3600000)%Z) (Some (t + 3600000)%Z) googleScopes in
         let user :=
           mkUser (_id user) (name user) (email user) (googleId user)
                  (profilePicture user) (Some tokenData) (Some t) in
         _ ← UserModel.save user;
         mret user
     | None =>
         user ← UserModel.findOne (UserModel.ByEmail mail);
         match user with
         | Some user =>
             t ← gets now;
             let tokenData :=
               mkGoogleTokens (Some accessToken)
                 (Js.or_str refreshToken (googleTokens user ≫= UserSchema.refreshToken))
                 (Some (t + 3600000)%Z) (Some (t + 3600000)%Z) googleScopes in
             let user :=
               mkUser (_id user) (name user) (email user) (Some (profile_id profile))
                      (head (photos profile)) (Some tokenData) (Some t) in
             _ ← UserModel.save user;
             mret user
         | None =>
             t ← gets now;
             UserModel.create
               (mkUser newId (displayName profile) mail (Some (profile_id profile))
                       (head (photos profile))
                       (Some (mkGoogleTokens (Some accessToken) refreshToken
                                             (Some (t + 3600000)%Z)
                                             (Some (t + 3600000)%Z) googleScopes))
                       (Some t))
         end
     end)
    (λ error, throw error).

End PassportPreserving.

(** ** Controllers *)

(** What a handler does with the response. *)
Inductive Reply (A : Type) :=
  | Json (status : nat) (data : A)
  | JsonError (status : nat) (message : string)
  | Next (message : string) (statusCode : nat).
Arguments Json {A} status data.
Arguments JsonError {A} status message.
Arguments Next {A} message statusCode.

(** The Google Tasks controller. *)
Module TaskController.

Section WithProvider.
Variable P : Provider.

(** The update payload [toggleTaskCompletion] builds from the task it
    read, lines 388-411; [t] is the clock reading. *)
Definition toggleUpdateData (currentTask : Task) (t : Z) : Obj :=
  let newStatus :=
    if bool_decide (status currentTask = Some "completed")
    then "needsAction" else "completed" in
  let updateData : Obj :=
    [ ("title", Js.of_str (title currentTask));
      ("notes", Js.of_str (Js.or_str (notes currentTask) (Some "")));
      ("status", JStr newStatus) ] in
  let updateData :=
    if Js.truthy_str (due currentTask)
    then Js.set "due" (Js.of_str (due currentTask)) updateData
    else updateData in
  let updateData :=
    if Js.truthy_str (parent currentTask)
    then Js.set "parent" (Js.of_str (parent currentTask)) updateData
    else updateData in
  if String.eqb newStatus "completed"
  then Js.set "completed" (JStr (toISOString P t)) updateData
  else updateData.

(** [tasklistId || "@default"] *)
Definition listOf (tasklistId : option string) : string :=
  default "@default" (Js.or_str tasklistId (Some "@default")).

(** [toggleTaskCompletion], lines 369-433; [userId] is [req.user._id],
    the two optional strings are [req.params]. *)
Definition toggleTaskCompletion (userId : string) (tasklistId taskId : option string)
    : M (Reply (Task * string)) :=
  match taskId with
  | Some tid =>
      if String.eqb tid "" then mret (Next "Task ID is required" 400)
      else
        try_catch
          (tasks ← GoogleApiService.getTasks P userId
                     (listOf tasklistId);
           match List.find (λ task, String.eqb (id task) tid) tasks with
           | None => mret (Next "Task not found" 404)
           | Some currentTask =>
               t ← gets now;
               let updateData := toggleUpdateData currentTask t in
               task ← GoogleApiService.updateTask P userId tid updateData
                        (listOf tasklistId);
               mret (Json 200
                       (task,
                        "Task " +:+
                        (if bool_decide (status currentTask = Some "completed")
                         then "marked as incomplete" else "completed")))
           end)
          (λ _, mret (Next "Failed to toggle task completion" 500))
  | None => mret (Next "Task ID is required" 400)
  end.

End WithProvider.

End TaskController.

(** The auth controller. *)
Module AuthController.

(** [disconnectGoogle], lines 636-662; [userId] is [req.user.id]. *)
Definition disconnectGoogle (userId : string) : M (Reply (option User)) :=
  try_catch
    (user ← UserModel.findByIdAndUnsetGoogle userId;
     mret (Json 200 user))
    (λ _, mret (JsonError 500 "Error disconnecting Google account")).

End AuthController.


(** ** Observations on a world *)

(** Token-endpoint calls in a log. *)
Definition is_exchange (e : Event) : bool :=
  match e with
  | EvRefreshAccessToken _ => true
  | _ => false
  end.

Definition exchanges (l : list Event) : nat := length (List.filter is_exchange l).
Arguments exchanges : simpl never.

(** The refresh token on file for a user. *)
Definition stored_refresh_token (w : World) (userId : string) : option string :=
  ((store w !! userId) ≫= googleTokens) ≫= refreshToken.

(** The credentials a refresh ends with, at clock reading [t]: the answer
    of the token endpoint as the SDK hands it on, carrying the refresh token
    [rt] that was presented. *)
Definition refreshed (t : Z) (rt : string) (resp : Tokens) : Tokens :=
  let tokens := GoogleApiService.withExpiryDate t resp in
  mkTokens (access_token tokens) (Some rt) (expiry_date tokens) (expires_in tokens).

(** Writes to the users collection in a log. *)
Definition is_update (e : Event) : bool :=
  match e with
  | EvFindByIdAndUpdate _ => true
  | _ => false
  end.

Definition updates (l : list Event) : nat := length (List.filter is_update l).
Arguments updates : simpl never.

(** Calls to the Tasks API in a log. *)
Definition is_tasks_call (e : Event) : bool :=
  match e with
  | EvTasksList _ _ | EvTasksUpdate _ _ _ => true
  | _ => false
  end.

Definition tasks_calls (l : list Event) : list Event := List.filter is_tasks_call l.
Arguments tasks_calls : simpl never.

(** What fetching one message contributes to the result of [getEmails]. *)
Definition fetched (P : Provider) (message : MessageRef) : option Email :=
  match messages_get P (msg_id message) with
  | inr d => Some d
  | inl _ => None
  end.

(** ** Sample data *)

Module Sample.

Definition tokensOf (at_ : string) (rt : option string) (expiry : Z) : GoogleTokens :=
  mkGoogleTokens (Some at_) rt (Some expiry) (Some expiry) googleScopes.

(** Alice has a refresh token the provider honours, Bob has none, Carol's
    has been revoked. *)
Definition alice : User :=
  mkUser "u1" "Alice" "alice@example.com" (Some "g-1") None
         (Some (tokensOf "at-1" (Some "rt-1") 4000000)) None.

Definition bob : User :=
  mkUser "u2" "Bob" "bob@example.com" (Some "g-2") None
         (Some (tokensOf "at-b" None 4000000)) None.

Definition carol : User :=
  mkUser "u3" "Carol" "carol@example.com" (Some "g-3") None
         (Some (tokensOf "at-c" (Some "rt-revoked") 4000000)) None.

Definition users : gmap string User :=
  <["u1" := alice]> (<["u2" := bob]> (<["u3" := carol]> ∅)).

Definition aliceProfile : Profile :=
  mkProfile "g-1" "Alice" ["alice@example.com"] [].

Definition groceries : Task :=
  mkTask "t1" (Some "Groceries") (Some "x") (Some "needsAction")
         (Some "2024-01-01") None None.

Definition laundry : Task :=
  mkTask "t2" (Some "Laundry") None (Some "completed") None (Some "t1")
         (Some "2023-12-31T10:00:00.000Z").

Definition provider : Provider :=
  mkProvider
    (λ rt, if String.eqb rt "rt-1"
           then inr (mkTokens (Some "at-2") None (Some 8600000%Z) None)
           else inl (Error "invalid_grant"))
    (λ _ _, inr (Some [mkMessageRef "m1"; mkMessageRef "m2"; mkMessageRef "m3"]))
    (λ msgId, if String.eqb msgId "m2"
              then inl (Error "Not Found")
              else inr (mkEmail msgId "hello"))
    (λ _, inr (Some [groceries; laundry]))
    (λ _ task _, inr (mkTask task None None None None None None))
    (λ _, "2024-01-02T00:00:00.000Z").

(** A freshly started process at a time when the stored access tokens have
    50 minutes left, and one when they expired long ago. *)
Definition morning : World :=
  mkWorld users ∅ [] ∅ None ∅ [] 1000000.

Definition evening : World :=
  mkWorld users ∅ [] ∅ None ∅ [] 5000000.

(** The evening, with an entry for Bob in the token cache that names a
    refresh token the store does not have. *)
Definition staleCache : World :=
  mkWorld users
          (<["tokens_u2" :=
               mkCacheItem (mkTokens (Some "at-b") (Some "rt-cached")
                                     (Some 5100000%Z) None) 6000000]> ∅)
          [] ∅ None ∅ [] 5000000.

(** Alice has made a call in the morning: her tokens are cached and her
    client is pooled. *)
Definition afterCall : World :=
  (GoogleApiService.setupClient provider "u1" None morning).2.

(** A pool holding 100 clients. *)
Definition fullPool : list (string * nat) :=
  map (λ n, ("oauth_user" +:+ pretty n, n)) (seq 0 100).

Definition crowded : World :=
  mkWorld users ∅ fullPool
          (list_to_map (map (λ n, (n, mkClient (mkTokens None None None None)))
                            (seq 0 100)))
          None ∅ [] 1000000.

End Sample.

(** ** Further observations *)

(** The clock moves on to [t]; nothing else changes. *)
Definition set_now (t : Z) (w : World) : World :=
  mkWorld (store w) (cache w) (oauthClientPool w) (heap w) (oauth2Client w)
          (reqs w) (log w) t.

(** How long an entry set with [ttl] seconds stays in the token cache, in
    milliseconds (line 14). *)
Definition lifetime (ttl : Z) : Z :=
  if (ttl =? 0)%Z then 3600000%Z else (ttl * 1000)%Z.

(** A series of [getOAuthClient] calls, one after the other. *)
Definition acquireAll (calls : list (string * option Tokens)) (w : World) : World :=
  foldl (λ w call, (GoogleApiService.getOAuthClient call.1 call.2 w).2) w calls.

(** The shape the pool is kept in: at most 101 entries, one per key, every
    entry a client object that exists, no client object under two keys. *)
Definition pool_ok (w : World) : Prop :=
  (length (oauthClientPool w) ≤ 101)%nat ∧
  NoDup (oauthClientPool w).*1 ∧
  NoDup (oauthClientPool w).*2 ∧
  ∀ c, c ∈ (oauthClientPool w).*2 → is_Some (heap w !! c).

(** ** The fallback middleware ([src/unnamed/part_003]) *)

(** [SimpleCacheFallback], lines 21-59: a [Map] from key to
    [{ value, expires }], at most [maxSize] entries; [t] is the reading of
    [Date.now()]. *)
Module SimpleCacheFallback.

Section Cache.
Context {V : Type}.

Definition maxSize : nat := 1000.

Definition set (key : string) (v : V) (ttl t : Z) (cache : list (string * (V * Z)))
    : list (string * (V * Z)) :=
  let cache :=
    if (maxSize <=? JsMap.size cache)%nat
    then JsMap.delete_opt (JsMap.first_key cache) cache
    else cache in
  JsMap.set key (v, (t + ttl * 1000)%Z) cache.

Definition get (key : string) (t : Z) (cache : list (string * (V * Z)))
    : option V * list (string * (V * Z)) :=
  match JsMap.get key cache with
  | None => (None, cache)
  | Some item =>
      if (item.2 <? t)%Z then (None, JsMap.delete key cache)
      else (Some item.1, cache)
  end.

Definition del (key : string) (cache : list (string * (V * Z)))
    : list (string * (V * Z)) :=
  JsMap.delete key cache.

Definition clear (cache : list (string * (V * Z))) : list (string * (V * Z)) := [].

(** One call on the cache. *)
Inductive Op :=
  | OpSet (key : string) (v : V) (ttl t : Z)
  | OpGet (key : string) (t : Z)
  | OpDel (key : string)
  | OpClear.

Definition apply (cache : list (string * (V * Z))) (op : Op) : list (string * (V * Z)) :=
  match op with
  | OpSet key v ttl t => set key v ttl t cache
  | OpGet key t => (get key t cache).2
  | OpDel key => del key cache
  | OpClear => clear cache
  end.

End Cache.
Arguments Op : clear implicits.

End SimpleCacheFallback.

(** [rateLimitFallback(maxRequests, windowMs)], lines 62-97: the handler's
    state is the [requests] map from client key to the times of the requests
    let through. *)
Module RateLimitFallback.

(** [req.ip || req.connection.remoteAddress || "unknown"] *)
Definition clientKey (ip remoteAddress : option string) : string :=
  default "unknown" (Js.or_str (Js.or_str ip remoteAddress) (Some "unknown")).

(** The loop of lines 70-78: every entry is cut down to the times inside the
    window, entries left without any are deleted. *)
Definition clean (windowStart : Z) (requests : list (string * list Z))
    : list (string * list Z) :=
  omap (λ entry : string * list Z,
          let filtered := List.filter (λ time, (windowStart <? time)%Z) entry.2 in
          if (length filtered =? 0)%nat then None else Some (entry.1, filtered))
       requests.

(** One request of the client [key] at time [t]: [true] is [next()], [false]
    is the 429 answer. *)
Definition handle (maxRequests windowMs : Z) (requests : list (string * list Z))
    (key : string) (t : Z) : bool * list (string * list Z) :=
  let windowStart := (t - windowMs)%Z in
  let requests := clean windowStart requests in
  let userRequests := default [] (JsMap.get key requests) in
  let recentRequests := List.filter (λ time, (windowStart <? time)%Z) userRequests in
  if (maxRequests <=? Z.of_nat (length recentRequests))%Z
  then (false, requests)
  else (true, JsMap.set key (recentRequests ++ [t]) requests).

(** A series of requests, oldest first; the result lists the requests let
    through, oldest first, and the final state. *)
Fixpoint serve (maxRequests windowMs : Z) (requests : list (string * list Z))
    (incoming : list (string * Z)) : list (string * Z) * list (string * list Z) :=
  match incoming with
  | [] => ([], requests)
  | (key, t) :: incoming =>
      let (passed, requests) := handle maxRequests windowMs requests key t in
      let (rest, final) := serve maxRequests windowMs requests incoming in
      (if passed then (key, t) :: rest else rest, final)
  end.

(** How many of the requests let through for [key] lie inside the window that
    ends at [t]. *)
Definition passed_in_window (windowMs : Z) (key : string) (t : Z)
    (passed : list (string * Z)) : nat :=
  length (List.filter (λ p : string * Z,
                         String.eqb p.1 key && ((t - windowMs <? p.2)%Z))
                      passed).

(** Requests arriving in time order: no request is earlier than the one
    before it. *)
Fixpoint ascending (t0 : Z) (incoming : list (string * Z)) : bool :=
  match incoming with
  | [] => true
  | (_, t) :: incoming => (t0 <=? t)%Z && ascending t incoming
  end.

Definition in_order (incoming : list (string * Z)) : bool :=
  match incoming with
  | [] => true
  | (_, t) :: _ => ascending t incoming
  end.

(** The times at which requests of [key] were let through. *)
Definition times (key : string) (passed : list (string * Z)) : list Z :=
  (List.filter (λ p : string * Z, String.eqb p.1 key) passed).*2.

(** The times of a list that lie after [windowStart]. *)
Definition inwin (windowStart : Z) (l : list Z) : list Z :=
  List.filter (λ time, (windowStart <? time)%Z) l.

(** What the handler's state records about the requests let through so far,
    [t0] being the time of the latest request. *)
Definition tracks (windowMs maxRequests : Z) (requests : list (string * list Z))
    (passed : list (string * Z)) (t0 : Z) : Prop :=
  NoDup requests.*1 ∧
  (∀ k, default [] (JsMap.get k requests) = inwin (t0 - windowMs) (times k passed)) ∧
  (∀ k, (Z.of_nat (length (inwin (t0 - windowMs) (times k passed)))
         ≤ Z.max 0 maxRequests)%Z).

End RateLimitFallback.

(** ** More sample data *)

Module Scenario.

(** The crowded pool after one more user has come: 101 entries. *)
Definition packed : World :=
  (GoogleApiService.getOAuthClient "newcomer" None Sample.crowded).2.

(** Dave registered with a password and has not connected Google yet. *)
Definition dave : User :=
  mkUser "u4" "Dave" "dave@example.com" None None None None.

(** What the consent flow delivers for him: the name comes with a blank in
    front, the address in mixed case. *)
Definition daveProfile : Profile :=
  mkProfile "g-4" " Dave D." ["Dave@Example.com"] ["https://example.com/dave.png"].

Definition registered : World :=
  mkWorld {[ "u4" := dave ]} ∅ [] ∅ None ∅ [] 1000000.

(** A request object of Alice's session, holding an old copy of her
    record. *)
Definition aliceSession : World :=
  mkWorld Sample.users ∅ [] ∅ None
          {[ 0%nat := mkReq (Some (mkUser "u1" "Alice" "alice@example.com"
                                          (Some "g-1") None None None)) ]}
          [] 5000000.

(** Calls on the fallback cache and requests to the rate limiter. *)
Definition cacheOps : list (SimpleCacheFallback.Op string) :=
  [ SimpleCacheFallback.OpSet "a" "1" 300 0;
    SimpleCacheFallback.OpSet "b" "2" 300 1000;
    SimpleCacheFallback.OpGet "a" 400000;
    SimpleCacheFallback.OpDel "b" ].

Definition burst : list (string * Z) :=
  [ ("10.0.0.1", 0%Z); ("10.0.0.1", 10%Z); ("10.0.0.2", 15%Z);
    ("10.0.0.1", 20%Z); ("10.0.0.1", 1005%Z) ].

End Scenario.


(** * Properties *)

(** ** Running the monad *)

Ltac unfold_monad :=
  unfold mbind, mret, M_bind, M_ret, gets, modify, throw, try_catch, call in *.

Lemma exchanges_app l l' : exchanges (l ++ l') = (exchanges l + exchanges l')%nat.
Proof. unfold exchanges. by rewrite List.filter_app, length_app. Qed.

Lemma exchanges_single e : exchanges [e] = if is_exchange e then 1%nat else 0%nat.
Proof. unfold exchanges. simpl. by destruct (is_exchange e). Qed.

Lemma stored_refresh_token_eq w uid :
  stored_refresh_token w uid =
  match store w !! uid ≫= googleTokens with
  | Some gt => refreshToken gt
  | None => None
  end.
Proof. unfold stored_refresh_token. by destruct (store w !! uid ≫= googleTokens). Qed.

(** ** The client pool *)

(** Acquiring a client never fails and touches only the pool and the
    client objects. *)
Lemma getOAuthClient_frame uid t w :
  ∃ c w', GoogleApiService.getOAuthClient uid t w = (Ok c, w') ∧
    store w' = store w ∧ cache w' = cache w ∧ reqs w' = reqs w ∧
    log w' = log w ∧ now w' = now w.
Proof.
  unfold GoogleApiService.getOAuthClient, GoogleApiService.setCredentials,
    GoogleApiService.newOAuth2.
  unfold_monad.
  destruct (JsMap.get _ _); destruct t; simpl.
  all: try (eexists _, _; split; [reflexivity | simpl; auto]).
  all: destruct (100 <? _)%nat; simpl; eexists _, _; (split; [reflexivity | simpl; auto]).
Qed.

Lemma JsMap_set_fresh_length {V} k (v : V) m :
  JsMap.get k m = None → length (JsMap.set k v m) = S (length m).
Proof.
  induction m as [|[k' v'] m IH]; simpl; [done|].
  destruct (String.eqb k k'); [done|]. intros H. simpl. by rewrite IH.
Qed.

Lemma JsMap_get_set_ne {V} k k' (v : V) m :
  String.eqb k' k = false → JsMap.get k' (JsMap.set k v m) = JsMap.get k' m.
Proof.
  intros Hne. induction m as [|[k0 v0] m IH]; simpl.
  - by rewrite Hne.
  - destruct (String.eqb k k0) eqn:E; simpl.
    + apply String.eqb_eq in E. subst k0. by rewrite Hne.
    + by rewrite IH.
Qed.

(** A new user arriving at a pool of [n <= 100] clients makes it [n + 1]:
    nothing is evicted, whatever the pool holds. *)
Lemma getOAuthClient_no_eviction uid t w :
  JsMap.get ("oauth_" +:+ uid) (oauthClientPool w) = None →
  (length (oauthClientPool w) ≤ 100)%nat →
  let w' := (GoogleApiService.getOAuthClient uid t w).2 in
  length (oauthClientPool w') = S (length (oauthClientPool w)) ∧
  ∀ k, String.eqb k ("oauth_" +:+ uid) = false →
       JsMap.get k (oauthClientPool w') = JsMap.get k (oauthClientPool w).
Proof.
  intros Hmiss Hlen.
  unfold GoogleApiService.getOAuthClient, GoogleApiService.setCredentials,
    GoogleApiService.newOAuth2.
  unfold_monad. rewrite Hmiss.
  destruct t; cbn -[String.append Nat.ltb];
    unfold JsMap.size;
    (destruct (Nat.ltb_spec 100 (length (oauthClientPool w))); [lia|]);
    cbn -[String.append]; split;
    [ by apply JsMap_set_fresh_length | intros; by apply JsMap_get_set_ne
    | by apply JsMap_set_fresh_length | intros; by apply JsMap_get_set_ne ].
Qed.

Lemma JsMap_evict_first {V} k (m : list (string * V)) :
  JsMap.get k m = None →
  JsMap.get k (JsMap.delete_opt (JsMap.first_key m) m) = None ∧
  length (JsMap.delete_opt (JsMap.first_key m) m) = pred (length m).
Proof.
  destruct m as [|[k0 v0] m]; cbn; [done|].
  rewrite String.eqb_refl. destruct (String.eqb k k0); [discriminate|done].
Qed.

(** What the guard of line 65 does bound: a pool of at most 101 clients stays
    at most 101. *)
Lemma getOAuthClient_pool_bound uid t w :
  (length (oauthClientPool w) ≤ 101)%nat →
  (length (oauthClientPool (GoogleApiService.getOAuthClient uid t w).2) ≤ 101)%nat.
Proof.
  intros Hlen.
  unfold GoogleApiService.getOAuthClient, GoogleApiService.setCredentials,
    GoogleApiService.newOAuth2.
  unfold_monad.
  destruct (JsMap.get _ _) eqn:Hget.
  - destruct t; cbn; exact Hlen.
  - destruct t; cbn -[String.append Nat.ltb]; unfold JsMap.size;
      destruct (Nat.ltb_spec 100 (length (oauthClientPool w)));
      cbn -[String.append];
      try (rewrite JsMap_set_fresh_length by exact Hget; lia);
      destruct (JsMap_evict_first _ _ Hget) as [Hget' Hlen'];
      rewrite JsMap_set_fresh_length by exact Hget'; lia.
Qed.

(** ** Token refresh *)

Lemma updates_app l l' : updates (l ++ l') = (updates l + updates l')%nat.
Proof. unfold updates. by rewrite List.filter_app, length_app. Qed.

Lemma tasks_calls_app l l' : tasks_calls (l ++ l') = tasks_calls l ++ tasks_calls l'.
Proof. unfold tasks_calls. by rewrite List.filter_app. Qed.

Lemma syncTokensWithSession_frame uid req w :
  ∃ w', GoogleApiService.syncTokensWithSession uid req w = (Ok tt, w') ∧
    store w' = store w ∧ cache w' = cache w ∧ heap w' = heap w ∧
    oauthClientPool w' = oauthClientPool w ∧ oauth2Client w' = oauth2Client w ∧
    now w' = now w ∧ exchanges (log w') = exchanges (log w).
Proof.
  unfold GoogleApiService.syncTokensWithSession, UserModel.findById.
  unfold_monad.
  destruct req as [r|]; [|eexists; repeat split; reflexivity].
  destruct (option_bind _ _ _ _) as [u|]; [|eexists; repeat split; reflexivity].
  destruct (negb (_id u =? "")%string && (_id u =? uid)%string);
    [|eexists; repeat split; reflexivity].
  destruct (store w !! uid); simpl; eexists; (split; [reflexivity|]); simpl;
    rewrite ?exchanges_app, ?exchanges_single; simpl; repeat split; auto; lia.
Qed.

(** The session sync reads the store at most once and calls nothing else. *)
Lemma syncTokensWithSession_log uid req w :
  ∃ l, log (GoogleApiService.syncTokensWithSession uid req w).2 = log w ++ l ∧
       (l = [] ∨ l = [EvFindById uid]) ∧ (req = None → l = []).
Proof.
  unfold GoogleApiService.syncTokensWithSession, UserModel.findById.
  unfold_monad.
  destruct req as [r|]; [|exists []; by rewrite app_nil_r; auto].
  destruct (option_bind _ _ _ _) as [u|];
    [|exists []; by rewrite app_nil_r; auto].
  destruct (negb (_id u =? "")%string && (_id u =? uid)%string);
    [|exists []; by rewrite app_nil_r; auto].
  destruct (store w !! uid); simpl; exists [EvFindById uid];
    (split; [reflexivity|split; [auto|discriminate]]).
Qed.

Lemma updateUserTokensAt_run t1 t2 t3 uid tokens later req w :
  ∃ w', GoogleApiService.updateUserTokensAt t1 t2 t3 uid tokens later req w = (Ok tt, w') ∧
    store w' = match store w !! uid with
               | Some u =>
                   <[uid := UserModel.apply_update
                              (GoogleApiService.updateData t1 t2 tokens) u]> (store w)
               | None => store w
               end ∧
    cache w' =
      <["tokens_" +:+ uid :=
          mkCacheItem
            (mkTokens (access_token later) (refresh_token later)
               (Some (t3 + Js.or_num (expires_in later) 3600 * 1000)%Z) None)
            (now w + 3000 * 1000)]> (cache w) ∧
    heap w' = heap w ∧ oauthClientPool w' = oauthClientPool w ∧
    oauth2Client w' = oauth2Client w ∧
    now w' = now w ∧ exchanges (log w') = exchanges (log w) ∧
    ∃ l, log w' = log w ++ EvFindByIdAndUpdate uid :: l ∧
         (l = [] ∨ l = [EvFindById uid]) ∧ (req = None → l = []).
Proof.
  unfold GoogleApiService.updateUserTokensAt, UserModel.findByIdAndUpdate, tokenCache.set.
  unfold_monad. simpl.
  destruct (store w !! uid) as [u|] eqn:Hu;
    match goal with
    | |- context [GoogleApiService.syncTokensWithSession ?a ?b ?c] =>
        destruct (syncTokensWithSession_log a b c) as (l & Hl & Hl1 & Hl2);
        destruct (syncTokensWithSession_frame a b c)
          as (w1 & Hrun & Hs & Hc & Hh & Hp & Ho & Hn & He);
        rewrite Hrun in Hl |- *
    end;
    (eexists; split; [reflexivity|]); simpl in *;
    rewrite ?Hs, ?Hn, ?Hh, ?Hp, ?Ho, ?He, ?Hc, ?Hl, ?lookup_insert_eq,
      ?exchanges_app, ?exchanges_single;
    simpl; (repeat split; auto; try lia);
    exists l; rewrite <- app_assoc; auto.
Qed.

Lemma updateUserTokens_at uid tokens req w :
  GoogleApiService.updateUserTokens uid tokens req w
  = GoogleApiService.updateUserTokensAt (now w) (now w) (now w) uid tokens tokens req w.
Proof. reflexivity. Qed.

Lemma updateUserTokens_run uid tokens req w :
  ∃ w', GoogleApiService.updateUserTokens uid tokens req w = (Ok tt, w') ∧
    store w' = match store w !! uid with
               | Some u =>
                   <[uid := UserModel.apply_update
                              (GoogleApiService.updateData (now w) (now w) tokens) u]>
                     (store w)
               | None => store w
               end ∧
    cache w' !! ("tokens_" +:+ uid) =
      Some (mkCacheItem
              (mkTokens (access_token tokens) (refresh_token tokens)
                 (Some (now w + Js.or_num (expires_in tokens) 3600 * 1000)%Z) None)
              (now w + 3000 * 1000)) ∧
    heap w' = heap w ∧ oauthClientPool w' = oauthClientPool w ∧
    oauth2Client w' = oauth2Client w ∧
    now w' = now w ∧ exchanges (log w') = exchanges (log w).
Proof.
  rewrite updateUserTokens_at.
  destruct (updateUserTokensAt_run (now w) (now w) (now w) uid tokens tokens req w)
    as (w' & -> & Hs & Hc & Hh & Hp & Ho & Hn & He & _).
  exists w'. rewrite Hc, lookup_insert_eq. auto 10.
Qed.

(** The listener never fails; it writes the store once and leaves the cache
    entry of its own second [set]. *)
Lemma onTokensWith_run uid newTokens later w :
  ∃ w', GoogleApiService.onTokensWith uid newTokens later w = (Ok tt, w') ∧
    store w' = match store w !! uid with
               | Some u =>
                   <[uid := UserModel.apply_update
                              (GoogleApiService.updateData (now w) (now w) newTokens) u]>
                     (store w)
               | None => store w
               end ∧
    cache w' =
      <["tokens_" +:+ uid :=
          mkCacheItem
            (mkTokens (access_token later) (refresh_token later)
               (Some (Js.or_num (expiry_date later) (now w + 3600000))) None)
            (now w + 3000 * 1000)]> (cache w) ∧
    heap w' = heap w ∧ oauthClientPool w' = oauthClientPool w ∧
    oauth2Client w' = oauth2Client w ∧
    now w' = now w ∧ log w' = log w ++ [EvFindByIdAndUpdate uid].
Proof.
  unfold GoogleApiService.onTokensWith. unfold_monad.
  destruct (updateUserTokensAt_run (now w) (now w) (now w) uid newTokens later None w)
    as (w1 & -> & Hs & Hc & Hh & Hp & Ho & Hn & He & l & Hl & _ & Hnil).
  rewrite (Hnil eq_refl) in Hl.
  unfold tokenCache.set. eexists; split; [reflexivity|].
  cbn -[String.append]. rewrite Hs, Hc, Hh, Hp, Ho, Hn, Hl, insert_insert_eq.
  auto 10.
Qed.

Lemma truthy_str_some rt : rt ≠ "" → Js.truthy_str (Some rt) = true.
Proof.
  intros H. simpl. destruct (String.eqb_spec rt ""); [contradiction|reflexivity].
Qed.

Lemma withExpiryDate_access_token t data :
  access_token (GoogleApiService.withExpiryDate t data) = access_token data.
Proof.
  unfold GoogleApiService.withExpiryDate.
  destruct (expires_in data) as [n|]; [destruct (n =? 0)%Z|]; reflexivity.
Qed.

Lemma withExpiryDate_refresh_token t data :
  refresh_token (GoogleApiService.withExpiryDate t data) = refresh_token data.
Proof.
  unfold GoogleApiService.withExpiryDate.
  destruct (expires_in data) as [n|]; [destruct (n =? 0)%Z|]; reflexivity.
Qed.

(** After the SDK's conversion [expires_in] is falsy, so the code's
    [expires_in || 3600] is always 3600. *)
Lemma withExpiryDate_expires_in t data :
  Js.or_num (expires_in (GoogleApiService.withExpiryDate t data)) 3600 = 3600%Z.
Proof.
  unfold GoogleApiService.withExpiryDate, Js.or_num.
  destruct (expires_in data) as [n|] eqn:E; [destruct (n =? 0)%Z eqn:E0|]; cbn;
    rewrite ?E, ?E0; reflexivity.
Qed.

Section Refresh.
Variable P : Provider.

(** The SDK's refresh on a client that holds a refresh token, when the
    token endpoint rejects it: nothing but the call happens. *)
Lemma refreshAccessToken_fails uid c w cl rt e :
  heap w !! c = Some cl →
  refresh_token (credentials cl) = Some rt →
  Js.truthy_str (Some rt) = true →
  token_endpoint P rt = inl e →
  GoogleApiService.refreshAccessToken P uid c w
  = (Throw e, emit (EvRefreshAccessToken rt) w).
Proof.
  intros Hcl Hrt Ht He. unfold GoogleApiService.refreshAccessToken. unfold_monad.
  rewrite Hcl. cbn [option_bind]. rewrite Hrt.
  cbn in Ht. destruct (String.eqb rt ""); [discriminate|]. by rewrite He.
Qed.

(** The same when the token endpoint answers: the listener has written the
    answer to the store and the cache, and the client holds the answer with
    the presented refresh token. *)
Lemma refreshAccessToken_ok uid c w cl rt resp :
  heap w !! c = Some cl →
  refresh_token (credentials cl) = Some rt →
  Js.truthy_str (Some rt) = true →
  token_endpoint P rt = inr resp →
  let creds := refreshed (now w) rt resp in
  ∃ w', GoogleApiService.refreshAccessToken P uid c w = (Ok creds, w') ∧
    store w' = match store w !! uid with
               | Some u =>
                   <[uid := UserModel.apply_update
                              (GoogleApiService.updateData (now w) (now w)
                                 (GoogleApiService.withExpiryDate (now w) resp)) u]>
                     (store w)
               | None => store w
               end ∧
    cache w' =
      <["tokens_" +:+ uid :=
          mkCacheItem
            (mkTokens (access_token creds) (refresh_token creds)
               (Some (Js.or_num (expiry_date creds) (now w + 3600000))) None)
            (now w + 3000 * 1000)]> (cache w) ∧
    heap w' = <[c := mkClient creds]> (heap w) ∧
    oauthClientPool w' = oauthClientPool w ∧
    oauth2Client w' = oauth2Client w ∧
    now w' = now w ∧
    log w' = log w ++ [EvRefreshAccessToken rt; EvFindByIdAndUpdate uid].
Proof.
  intros Hcl Hrt Ht He creds. unfold GoogleApiService.refreshAccessToken. unfold_monad.
  rewrite Hcl. cbn [option_bind]. rewrite Hrt.
  cbn in Ht. destruct (String.eqb rt ""); [discriminate|]. rewrite He.
  cbn [now emit]. fold creds.
  change (mkTokens (access_token (GoogleApiService.withExpiryDate (now w) resp))
                   (Some rt)
                   (expiry_date (GoogleApiService.withExpiryDate (now w) resp))
                   (expires_in (GoogleApiService.withExpiryDate (now w) resp)))
    with creds.
  destruct (onTokensWith_run uid (GoogleApiService.withExpiryDate (now w) resp) creds
              (emit (EvRefreshAccessToken rt) w))
    as (w2 & -> & Hs2 & Hc2 & Hh2 & Hp2 & Ho2 & Hn2 & Hl2).
  unfold GoogleApiService.setCredentials. unfold_monad.
  eexists; split; [reflexivity|].
  cbn -[String.append] in *.
  rewrite Hs2, Hc2, Hh2, Hp2, Ho2, Hn2, Hl2, <- app_assoc.
  repeat split; auto.
Qed.

(** No refresh token on file: the guard of line 226 throws, the handler of
    line 258 evicts the cache entry and throws [refreshFailed]. *)
Lemma refreshToken_no_token uid req w :
  Js.truthy_str (stored_refresh_token w uid) = false →
  GoogleApiService.refreshToken P uid req w =
    (Throw refreshFailed,
     set_cache (delete ("tokens_" +:+ uid)) (emit (EvFindById uid) w)).
Proof.
  rewrite stored_refresh_token_eq. intros H.
  unfold GoogleApiService.refreshToken, UserModel.findById, tokenCache.del.
  unfold_monad. cbn [fst snd].
  change (option_bind _ _ googleTokens (store w !! uid))
    with (store w !! uid ≫= googleTokens) in *.
  destruct (store w !! uid ≫= googleTokens) as [gt|]; [|reflexivity].
  rewrite H. reflexivity.
Qed.

(** The token endpoint rejects the exchange. *)
Lemma refreshToken_exchange_fails uid req w rt e :
  stored_refresh_token w uid = Some rt →
  Js.truthy_str (Some rt) = true →
  token_endpoint P rt = inl e →
  ∃ w', GoogleApiService.refreshToken P uid req w = (Throw refreshFailed, w') ∧
    store w' = store w ∧ cache w' = delete ("tokens_" +:+ uid) (cache w) ∧
    now w' = now w ∧
    log w' = log w ++ [EvFindById uid; EvRefreshAccessToken rt] ∧
    ∃ c w1,
      GoogleApiService.getOAuthClient uid None (emit (EvFindById uid) w) = (Ok c, w1) ∧
      oauthClientPool w' = oauthClientPool w1 ∧
      heap w' = <[c := mkClient (mkTokens None (Some rt) None None)]> (heap w1).
Proof.
  rewrite stored_refresh_token_eq. intros Hrt Ht He.
  unfold GoogleApiService.refreshToken, UserModel.findById, tokenCache.del.
  unfold_monad. cbn [fst snd].
  change (option_bind _ _ googleTokens (store w !! uid))
    with (store w !! uid ≫= googleTokens) in *.
  destruct (store w !! uid ≫= googleTokens) as [gt|]; [|discriminate].
  rewrite Hrt, Ht.
  destruct (getOAuthClient_frame uid None (emit (EvFindById uid) w))
    as (c & w1 & Hget & Hs & Hc & Hr & Hl & Hn).
  rewrite Hget.
  unfold GoogleApiService.setCredentials at 1. unfold_monad.
  rewrite (refreshAccessToken_fails uid c
             (set_heap (insert c (mkClient (mkTokens None (Some rt) None None))) w1)
             (mkClient (mkTokens None (Some rt) None None)) rt e
             (lookup_insert_eq _ _ _) eq_refl Ht He).
  eexists; split; [reflexivity|]. cbn -[String.append].
  rewrite Hs, Hc, Hl, Hn. cbn. rewrite <- app_assoc.
  repeat split; auto. by exists c, w1.
Qed.

(** The token endpoint answers.  The listener writes the answer to the
    store, [refreshToken] then writes the credentials it got back, which
    carry the refresh token that was presented. *)
Lemma refreshToken_exchange_ok uid req w u rt resp :
  store w !! uid = Some u →
  stored_refresh_token w uid = Some rt →
  Js.truthy_str (Some rt) = true →
  token_endpoint P rt = inr resp →
  let creds := refreshed (now w) rt resp in
  ∃ c w1 w' l,
    GoogleApiService.getOAuthClient uid None (emit (EvFindById uid) w) = (Ok c, w1) ∧
    GoogleApiService.refreshToken P uid req w = (Ok creds, w') ∧
    store w' =
      <[uid := UserModel.apply_update
                 (GoogleApiService.updateData (now w) (now w) creds)
                 (UserModel.apply_update
                    (GoogleApiService.updateData (now w) (now w)
                       (GoogleApiService.withExpiryDate (now w) resp)) u)]>
        (store w) ∧
    cache w' !! ("tokens_" +:+ uid) =
      Some (mkCacheItem
              (mkTokens (access_token resp) (Some rt)
                 (Some (now w + 3600 * 1000)%Z) None)
              (now w + 3000 * 1000)) ∧
    oauth2Client w' = Some c ∧
    oauthClientPool w' = oauthClientPool w1 ∧
    heap w' = <[c := mkClient (mkTokens (access_token resp) (Some rt)
                                        (expiry_date creds) None)]> (heap w1) ∧
    now w' = now w ∧
    log w' = log w ++ [EvFindById uid; EvRefreshAccessToken rt;
                       EvFindByIdAndUpdate uid; EvFindByIdAndUpdate uid] ++ l ∧
    (l = [] ∨ l = [EvFindById uid]) ∧ (req = None → l = []).
Proof.
  intros Hu. rewrite stored_refresh_token_eq. intros Hrt Ht He creds.
  unfold GoogleApiService.refreshToken, UserModel.findById, tokenCache.del.
  unfold_monad. cbn [fst snd].
  change (option_bind _ _ googleTokens (store w !! uid))
    with (store w !! uid ≫= googleTokens) in *.
  destruct (store w !! uid ≫= googleTokens) as [gt|]; [|discriminate].
  rewrite Hrt, Ht.
  destruct (getOAuthClient_frame uid None (emit (EvFindById uid) w))
    as (c & w1 & Hget & Hs & Hc & Hr & Hl & Hn).
  rewrite Hget. exists c, w1.
  unfold GoogleApiService.setCredentials at 1. unfold_monad.
  destruct (refreshAccessToken_ok uid c
              (set_heap (insert c (mkClient (mkTokens None (Some rt) None None))) w1)
              (mkClient (mkTokens None (Some rt) None None)) rt resp
              (lookup_insert_eq _ _ _) eq_refl Ht He)
    as (w2 & -> & Hs2 & Hc2 & Hh2 & Hp2 & Ho2 & Hn2 & Hl2).
  cbn [now store set_heap heap cache oauthClientPool oauth2Client log] in *.
  rewrite Hn in *. cbn [now emit store] in *. fold creds.
  change (refresh_token creds) with (Some rt). rewrite Ht. cbn [negb].
  rewrite updateUserTokens_at.
  destruct (updateUserTokensAt_run (now w2) (now w2) (now w2) uid creds creds req w2)
    as (w3 & -> & Hs3 & Hc3 & Hh3 & Hp3 & Ho3 & Hn3 & _ & l & Hl3 & Hl3' & Hl3'').
  unfold GoogleApiService.setCredentials. unfold_monad.
  eexists _, l; split; [reflexivity|]. split; [reflexivity|].
  cbn -[String.append].
  rewrite Hs3, Hc3, Hh3, Hp3, Hn3, Hl3, Hs2, Hh2, Hp2, Hn2, Hl2, Hs, Hl, Hu.
  rewrite lookup_insert_eq, !insert_insert_eq.
  assert (Js.or_num (expires_in creds) 3600 = 3600%Z) as ->
    by apply withExpiryDate_expires_in.
  assert (access_token creds = access_token resp) as ->
    by apply withExpiryDate_access_token.
  change (refresh_token creds) with (Some rt).
  cbn [log emit]. rewrite <- !app_assoc. cbn [app].
  repeat split; auto.
  - apply lookup_insert_eq.
  - by rewrite withExpiryDate_access_token.
Qed.




(** Loading the tokens reads the cache and perhaps the store; it calls no
    token endpoint and changes neither the store nor the clock. *)
Lemma loadTokens_frame uid w :
  let '(_, w') := GoogleApiService.loadTokens uid w in
  store w' = store w ∧ now w' = now w ∧ exchanges (log w') = exchanges (log w).
Proof.
  unfold GoogleApiService.loadTokens, tokenCache.get, tokenCache.set, UserModel.findById.
  unfold_monad.
  destruct (cache w !! _) as [item|]; [destruct (now w <? expires item)%Z|];
    cbn -[String.append]; auto;
    change (option_bind _ _ googleTokens (store w !! uid))
      with (store w !! uid ≫= googleTokens);
    (destruct (store w !! uid ≫= googleTokens) as [gt|];
     [destruct (Js.truthy_str (accessToken gt))|]);
    cbn -[String.append]; rewrite ?exchanges_app, ?exchanges_single;
    cbn; repeat split; auto; lia.
Qed.

End Refresh.

(** ** The refresh token is durable *)

Section Durable.
Variable P : Provider.

Lemma stored_refresh_token_user w uid rt :
  stored_refresh_token w uid = Some rt → ∃ u, store w !! uid = Some u.
Proof.
  unfold stored_refresh_token. destruct (store w !! uid); [eauto|discriminate].
Qed.

(** What [updateData] writes into the refresh token field when the
    credentials carry a usable refresh token. *)
Lemma apply_update_refresh_token t1 t2 tokens u :
  Js.truthy_str (refresh_token tokens) = true →
  googleTokens (UserModel.apply_update (GoogleApiService.updateData t1 t2 tokens) u)
    ≫= refreshToken = refresh_token tokens.
Proof.
  intros H. unfold GoogleApiService.updateData. rewrite H.
  destruct (refresh_token tokens); [|discriminate].
  destruct (access_token tokens); reflexivity.
Qed.

(** C1. A successful [refreshToken] whose token-endpoint response carries no
    [refresh_token] (absent, or empty) leaves the refresh token stored for
    the user exactly as it was. *)
Theorem refresh_preserves_refresh_token uid req w rt resp creds w' :
  stored_refresh_token w uid = Some rt →
  token_endpoint P rt = inr resp →
  Js.truthy_str (refresh_token resp) = false →
  GoogleApiService.refreshToken P uid req w = (Ok creds, w') →
  stored_refresh_token w' uid = stored_refresh_token w uid.
Proof.
  intros Hrt Hresp Habsent Hrun.
  destruct (Js.truthy_str (Some rt)) eqn:Ht.
  - destruct (stored_refresh_token_user _ _ _ Hrt) as [u Hu].
    destruct (refreshToken_exchange_ok P uid req w u rt resp Hu Hrt Ht Hresp)
      as (c & w1 & w2 & l & _ & Hrun2 & Hs & _).
    rewrite Hrun in Hrun2. injection Hrun2 as _ <-.
    rewrite Hrt. unfold stored_refresh_token. rewrite Hs, lookup_insert_eq.
    cbn [mbind option_bind].
    rewrite apply_update_refresh_token; [reflexivity|exact Ht].
  - rewrite refreshToken_no_token in Hrun; [discriminate|]. by rewrite Hrt.
Qed.

(** C5. When the token endpoint rejects the exchange, [refreshToken] fails
    with [refreshFailed] and by then the user's token cache entry is gone. *)
Theorem refresh_failure_evicts_cache uid req w rt e :
  stored_refresh_token w uid = Some rt →
  rt ≠ "" →
  token_endpoint P rt = inl e →
  ∃ w', GoogleApiService.refreshToken P uid req w = (Throw refreshFailed, w') ∧
        cache w' !! ("tokens_" +:+ uid) = None ∧
        tokenCache.get ("tokens_" +:+ uid) w' = (Ok None, w').
Proof.
  intros Hrt Hne He.
  destruct (refreshToken_exchange_fails P uid req w rt e Hrt (truthy_str_some _ Hne) He)
    as (w' & Hrun & _ & Hc & _).
  exists w'. split; [exact Hrun|].
  assert (cache w' !! ("tokens_" +:+ uid) = None) as Hnone
    by (rewrite Hc; apply lookup_delete_eq).
  split; [exact Hnone|]. unfold tokenCache.get. by rewrite Hnone.
Qed.

End Durable.

(** Alice in the evening: the endpoint answers without a refresh token and
    hers is still on file afterwards. *)
Lemma refresh_preserves_refresh_token_witness :
  stored_refresh_token
    (GoogleApiService.refreshToken Sample.provider "u1" None Sample.evening).2 "u1"
  = stored_refresh_token Sample.evening "u1".
Proof.
  assert (∃ creds w',
             GoogleApiService.refreshToken Sample.provider "u1" None Sample.evening
             = (Ok creds, w')) as (creds & w' & E)
    by (vm_compute; eexists _, _; reflexivity).
  rewrite E.
  apply (refresh_preserves_refresh_token Sample.provider "u1" None Sample.evening
           "rt-1" (mkTokens (Some "at-2") None (Some 8600000%Z) None) creds w').
  - vm_compute; reflexivity.
  - vm_compute; reflexivity.
  - reflexivity.
  - exact E.
Defined.

(** Carol in the evening: her refresh token is rejected. *)
Lemma refresh_failure_evicts_cache_witness :
  ∃ w', GoogleApiService.refreshToken Sample.provider "u3" None Sample.evening
        = (Throw refreshFailed, w') ∧
        cache w' !! "tokens_u3" = None ∧
        tokenCache.get "tokens_u3" w' = (Ok None, w').
Proof.
  apply (refresh_failure_evicts_cache Sample.provider "u3" None Sample.evening
           "rt-revoked" (Error "invalid_grant")).
  - reflexivity.
  - discriminate.
  - reflexivity.
Defined.

(** ** Lazy refresh in [setupClient] *)

Section Lazy.
Variable P : Provider.

(** [setupClient] once the tokens are loaded and the client acquired. *)
Lemma setupClient_run uid req w tokens w1 :
  GoogleApiService.loadTokens uid w = (Ok tokens, w1) →
  ∃ c w2,
    store w2 = store w ∧ now w2 = now w ∧ exchanges (log w2) = exchanges (log w) ∧
    GoogleApiService.setupClient P uid req w =
      if Js.lt (GoogleApiService.timeUntilExpiry tokens (now w)) (Fin 300000)
      then match GoogleApiService.refreshToken P uid req w2 with
           | (Ok _, w3) => (Ok (oauth2Client w3), w3)
           | (Throw e, w3) => (Throw e, w3)
           end
      else (Ok (Some c), w2).
Proof.
  intros Hload. pose proof (loadTokens_frame uid w) as Hf. rewrite Hload in Hf.
  destruct Hf as (Hs1 & Hn1 & He1).
  unfold GoogleApiService.setupClient. unfold_monad. rewrite Hload.
  destruct (getOAuthClient_frame uid (Some tokens) w1)
    as (c & w2 & -> & Hs & Hc & Hr & Hl & Hn).
  exists c, (set_oauth2Client (Some c) w2). cbn -[String.append Js.lt].
  rewrite Hs, Hn, Hl, Hs1, Hn1, He1. repeat split.
  destruct (Js.lt _ _); [|reflexivity].
  destruct (GoogleApiService.refreshToken P uid req _) as [[?|?] ?]; reflexivity.
Qed.

(** A refresh that gets an answer from the token endpoint makes one
    exchange. *)
Lemma refreshToken_exchange_ok_count uid req w u rt resp :
  store w !! uid = Some u →
  stored_refresh_token w uid = Some rt →
  Js.truthy_str (Some rt) = true →
  token_endpoint P rt = inr resp →
  ∃ c creds w', GoogleApiService.refreshToken P uid req w = (Ok creds, w') ∧
    oauth2Client w' = Some c ∧
    exchanges (log w') = S (exchanges (log w)).
Proof.
  intros Hu Hrt Ht He.
  destruct (refreshToken_exchange_ok P uid req w u rt resp Hu Hrt Ht He)
    as (c & w1 & w' & l & _ & Hrun & _ & _ & Ho & _ & _ & _ & Hl & Hl' & _).
  exists c, (refreshed (now w) rt resp), w'. split; [exact Hrun|]. split; [exact Ho|].
  rewrite Hl, !exchanges_app.
  destruct Hl' as [-> | ->]; unfold exchanges at 2 3; cbn; lia.
Qed.

(** C3, as the code has it.  With the tokens [setupClient] loads (a live cache
    entry, else the stored credential):
    - 5 minutes or more left, or no expiry recorded: no token exchange, the
      client is returned;
    - less than 5 minutes left and a refresh token on file: exactly one token
      exchange, and the client is returned when that exchange succeeds;
    - less than 5 minutes left and no refresh token on file: no token
      exchange, and [setupClient] fails. *)
Theorem setupClient_refresh_policy uid req w tokens w1 :
  GoogleApiService.loadTokens uid w = (Ok tokens, w1) →
  let r := (GoogleApiService.setupClient P uid req w).1 in
  let w' := (GoogleApiService.setupClient P uid req w).2 in
  (Js.lt (GoogleApiService.timeUntilExpiry tokens (now w)) (Fin 300000) = false →
     exchanges (log w') = exchanges (log w) ∧ ∃ c, r = Ok (Some c)) ∧
  (Js.lt (GoogleApiService.timeUntilExpiry tokens (now w)) (Fin 300000) = true →
     ∀ rt, stored_refresh_token w uid = Some rt → rt ≠ "" →
       exchanges (log w') = S (exchanges (log w)) ∧
       (∀ resp, token_endpoint P rt = inr resp → ∃ c, r = Ok (Some c)) ∧
       (∀ e, token_endpoint P rt = inl e → r = Throw refreshFailed)) ∧
  (Js.lt (GoogleApiService.timeUntilExpiry tokens (now w)) (Fin 300000) = true →
     Js.truthy_str (stored_refresh_token w uid) = false →
       exchanges (log w') = exchanges (log w) ∧ r = Throw refreshFailed).
Proof.
  intros Hload r w'. subst r w'.
  destruct (setupClient_run uid req w tokens w1 Hload)
    as (c & w2 & Hs & Hn & He & ->).
  assert (∀ u, stored_refresh_token w2 u = stored_refresh_token w u) as Hst
    by (intros; unfold stored_refresh_token; by rewrite Hs).
  split; [|split].
  - intros ->. cbn. split; [exact He|eauto].
  - intros -> rt Hrt Hne. rewrite <- Hst in Hrt.
    pose proof (truthy_str_some _ Hne) as Ht.
    destruct (token_endpoint P rt) as [e|resp] eqn:Hep.
    + destruct (refreshToken_exchange_fails P uid req w2 rt e Hrt Ht Hep)
        as (w3 & -> & _ & _ & _ & Hl & _).
      cbn. rewrite Hl, exchanges_app. unfold exchanges at 2. cbn.
      rewrite He. split; [lia|]. split; [discriminate|reflexivity].
    + destruct (stored_refresh_token_user _ _ _ Hrt) as [u Hu].
      destruct (refreshToken_exchange_ok_count uid req w2 u rt resp Hu Hrt Ht Hep)
        as (c' & creds & w3 & -> & Ho & Hl).
      cbn. rewrite Hl, He, Ho. split; [reflexivity|]. split; [eauto|discriminate].
  - intros -> Hno. rewrite <- Hst in Hno.
    rewrite (refreshToken_no_token P uid req w2 Hno). cbn.
    rewrite exchanges_app, exchanges_single, He. cbn. split; [lia|reflexivity].
Qed.

End Lazy.

(** C3, as stated, fails: Bob's access token has expired and no refresh token
    is on file for him, so [setupClient] makes no token exchange at all (and
    returns no client), although the expiry lies in the past. *)
Lemma setupClient_refresh_counterexample :
  ¬ (∀ (P : Provider) (w : World) (uid : string) (gt : GoogleTokens) (e : Z),
       (store w !! uid) ≫= googleTokens = Some gt →
       Js.truthy_str (accessToken gt) = true →
       cache w = ∅ →
       GoogleApiService.or_date (accessTokenExpiry gt) (expiryDate gt) = Some e →
       let w' := (GoogleApiService.setupClient P uid None w).2 in
       exchanges (log w') = S (exchanges (log w)) ↔ (e - now w < 300000)%Z).
Proof.
  intros H.
  specialize (H Sample.provider Sample.evening "u2"
                (Sample.tokensOf "at-b" None 4000000) 4000000%Z
                eq_refl eq_refl eq_refl eq_refl).
  destruct H as [_ H]. vm_compute in H. specialize (H eq_refl). discriminate.
Qed.

(** Alice in the evening: her token has expired, one exchange is made and
    the client is returned. *)
Lemma setupClient_refresh_policy_witness :
  exchanges (log (GoogleApiService.setupClient Sample.provider "u1" None Sample.evening).2) = 1%nat ∧
  ∃ c, (GoogleApiService.setupClient Sample.provider "u1" None Sample.evening).1 = Ok (Some c).
Proof.
  destruct (setupClient_refresh_policy Sample.provider "u1" None Sample.evening
              _ _ eq_refl) as (_ & H & _).
  destruct (H eq_refl "rt-1" eq_refl ltac:(discriminate)) as (H1 & H2 & _).
  split; [exact H1 | exact (H2 _ eq_refl)].
Defined.

(** ** Expiry written by [updateUserTokens] *)

(** C9, as stated, fails for a response with [expires_in: 0]: zero is falsy,
    so [expires_in || 3600] takes the default and the stored expiry is one
    hour ahead rather than the current time. *)
Lemma updateUserTokens_expiry_counterexample :
  ¬ (∀ (w : World) (uid : string) (tokens : Tokens) (req : option nat) (n : Z) (u : User),
       store w !! uid = Some u →
       expires_in tokens = Some n →
       ((store (GoogleApiService.updateUserTokens uid tokens req w).2 !! uid)
          ≫= googleTokens) ≫= accessTokenExpiry
       = Some (now w + n * 1000)%Z).
Proof.
  intros H.
  specialize (H Sample.evening "u1" (mkTokens (Some "at-2") None None (Some 0%Z))
                None 0%Z Sample.alice eq_refl eq_refl).
  vm_compute in H. discriminate.
Qed.

(** What the [updateData] document does to the two expiry fields of a
    record. *)
Lemma apply_update_expiry t1 t2 tokens u :
  ∃ gt, googleTokens (UserModel.apply_update (GoogleApiService.updateData t1 t2 tokens) u)
        = Some gt ∧
        accessTokenExpiry gt = Some (t1 + Js.or_num (expires_in tokens) 3600 * 1000)%Z ∧
        expiryDate gt = Some (t2 + Js.or_num (expires_in tokens) 3600 * 1000)%Z.
Proof.
  unfold GoogleApiService.updateData.
  destruct (Js.truthy_str (refresh_token tokens));
    destruct (access_token tokens); destruct (refresh_token tokens);
    cbn; eexists; (split; [reflexivity|]); cbn; auto.
Qed.

(** C9, as the code has it.  Every write of [updateUserTokens] sets
    [accessTokenExpiry] to the clock reading of line 161 plus [expires_in]
    seconds and [expiryDate] to the clock reading of line 165 plus
    [expires_in] seconds, with 3600 seconds when [expires_in] is absent or
    zero.  The two fields hold the same instant exactly when the two readings
    are the same; an [expiry_date] in the response plays no part. *)
Theorem updateUserTokens_expiry t1 t2 t3 uid tokens later req w u :
  store w !! uid = Some u →
  let secs := match expires_in tokens with
              | Some n => if (n =? 0)%Z then 3600%Z else n
              | None => 3600%Z
              end in
  let w' := (GoogleApiService.updateUserTokensAt t1 t2 t3 uid tokens later req w).2 in
  (∃ gt, (store w' !! uid) ≫= googleTokens = Some gt ∧
         accessTokenExpiry gt = Some (t1 + secs * 1000)%Z ∧
         expiryDate gt = Some (t2 + secs * 1000)%Z ∧
         (accessTokenExpiry gt = expiryDate gt ↔ t1 = t2)) ∧
  ∀ d, store (GoogleApiService.updateUserTokensAt t1 t2 t3 uid
                (mkTokens (access_token tokens) (refresh_token tokens) d
                          (expires_in tokens)) later req w).2
       = store w'.
Proof.
  intros Hu secs w'. subst w'. split.
  - destruct (updateUserTokensAt_run t1 t2 t3 uid tokens later req w)
      as (w' & -> & Hs & _).
    rewrite Hu in Hs. cbn [snd]. rewrite Hs, lookup_insert_eq.
    destruct (apply_update_expiry t1 t2 tokens u) as (gt & Hgt & Ha & He).
    exists gt. cbn [mbind option_bind]. split; [exact Hgt|].
    change (Js.or_num (expires_in tokens) 3600) with secs in Ha, He.
    split; [exact Ha|]. split; [exact He|].
    rewrite Ha, He. split; [intros [= H]; lia | by intros ->].
  - intros d.
    destruct (updateUserTokensAt_run t1 t2 t3 uid tokens later req w)
      as (w' & -> & Hs & _).
    destruct (updateUserTokensAt_run t1 t2 t3 uid
                (mkTokens (access_token tokens) (refresh_token tokens) d
                          (expires_in tokens)) later req w) as (w'' & -> & Hs' & _).
    cbn [snd]. rewrite Hs, Hs'. reflexivity.
Qed.

(** A response with [expires_in: 1800] in the evening, the second reading of
    the clock two milliseconds after the first. *)
Lemma updateUserTokens_expiry_witness :
  ∃ gt, (store (GoogleApiService.updateUserTokensAt 5000000 5000002 5000003 "u1"
                  (mkTokens (Some "at-2") None (Some 8600000%Z) (Some 1800%Z))
                  (mkTokens (Some "at-2") None (Some 8600000%Z) (Some 1800%Z))
                  None Sample.evening).2 !! "u1") ≫= googleTokens = Some gt ∧
        accessTokenExpiry gt = Some 6800000%Z ∧
        expiryDate gt = Some 6800002%Z.
Proof.
  destruct (proj1 (updateUserTokens_expiry 5000000 5000002 5000003 "u1"
                     (mkTokens (Some "at-2") None (Some 8600000%Z) (Some 1800%Z))
                     (mkTokens (Some "at-2") None (Some 8600000%Z) (Some 1800%Z))
                     None Sample.evening Sample.alice eq_refl))
    as (gt & Hgt & Ha & He & _).
  exists gt. split; [exact Hgt|]. split; [exact Ha|exact He].
Defined.

(** ** Disconnecting *)

(** C8, as stated, fails: after Alice has made a call and then disconnects,
    her tokens are still served from the token cache and her client is still
    in the pool. *)
Lemma disconnectGoogle_counterexample :
  ¬ (∀ (w : World) (uid : string),
       let w' := (AuthController.disconnectGoogle uid w).2 in
       cache w' !! ("tokens_" +:+ uid) = None ∧
       JsMap.has ("oauth_" +:+ uid) (oauthClientPool w') = false).
Proof.
  intros H. specialize (H Sample.afterCall "u1"). destruct H as [H _].
  vm_compute in H. discriminate.
Qed.

(** C8, as the code has it.  [disconnectGoogle] answers 200 with the updated
    record.  In the store the user's record stays, without its [googleId],
    [googleTokens] and [profilePicture] and with its other fields as they
    were; no other record changes and none is removed.  The token cache, the
    client pool and the client objects are left exactly as they were, so what
    they hold for the user is still there. *)
Theorem disconnectGoogle_store_only uid w :
  let r := (AuthController.disconnectGoogle uid w).1 in
  let w' := (AuthController.disconnectGoogle uid w).2 in
  (∀ u, store w !! uid = Some u →
     let u' := mkUser (_id u) (name u) (email u) None None None (lastLogin u) in
     r = Ok (Json 200 (Some u')) ∧ store w' = <[uid := u']> (store w)) ∧
  (store w !! uid = None → r = Ok (Json 200 None) ∧ store w' = store w) ∧
  dom (store w') = dom (store w) ∧
  (∀ k, k ≠ uid → store w' !! k = store w !! k) ∧
  cache w' = cache w ∧
  oauthClientPool w' = oauthClientPool w ∧
  heap w' = heap w ∧
  log w' = log w ++ [EvFindByIdAndUpdate uid].
Proof.
  unfold AuthController.disconnectGoogle, UserModel.findByIdAndUnsetGoogle.
  unfold_monad.
  destruct (store w !! uid) as [u|] eqn:Hu; cbn.
  - split; [by intros ? [= <-]|]. split; [done|].
    split; [apply dom_insert_lookup_L; eauto|].
    split; [intros k Hk; by rewrite lookup_insert_ne|]. auto.
  - split; [done|]. auto 10.
Qed.

(** ** The pool bound *)

(** C6 at a pool of exactly 100 clients: a new user's client is added without
    any eviction, and the pool holds 101. *)
Theorem pool_of_100_grows_to_101 :
  let w' := (GoogleApiService.getOAuthClient "newcomer" None Sample.crowded).2 in
  JsMap.size (oauthClientPool Sample.crowded) = 100%nat ∧
  JsMap.has "oauth_newcomer" (oauthClientPool Sample.crowded) = false ∧
  JsMap.first_key (oauthClientPool Sample.crowded) = Some "oauth_user0" ∧
  JsMap.size (oauthClientPool w') = 101%nat ∧
  JsMap.has "oauth_user0" (oauthClientPool w') = true ∧
  JsMap.has "oauth_newcomer" (oauthClientPool w') = true.
Proof. vm_compute. repeat split; reflexivity. Qed.

(** ** The consent handler *)

(** For any store: when the consent handler finds the user by Google id and
    no refresh token is delivered, the handler of [src/config/passport.js]
    leaves none on file, whatever was there. *)
Lemma verify_overwrites_refresh_token accessToken profile newId mail u w :
  head (emails profile) = Some mail →
  head (filter (λ u, UserModel.selects (UserModel.ByGoogleId (profile_id profile)) u = true)
               (map_to_list (store w)).*2) = Some u →
  stored_refresh_token (Passport.verify accessToken None profile newId w).2 (_id u) = None.
Proof.
  intros Hmail Hfind.
  unfold Passport.verify, firstEmail, UserModel.findOne, UserModel.save.
  unfold_monad. rewrite Hmail. cbn [fst snd]. cbn [store emit]. rewrite Hfind.
  cbn. unfold stored_refresh_token. cbn. by rewrite lookup_insert_eq.
Qed.

(** The other copy of the handler keeps what was there. *)
Lemma verify_preserving_keeps_refresh_token accessToken profile newId mail u w :
  head (emails profile) = Some mail →
  head (filter (λ u, UserModel.selects (UserModel.ByGoogleId (profile_id profile)) u = true)
               (map_to_list (store w)).*2) = Some u →
  stored_refresh_token (PassportPreserving.verify accessToken None profile newId w).2 (_id u)
  = googleTokens u ≫= refreshToken.
Proof.
  intros Hmail Hfind.
  unfold PassportPreserving.verify, firstEmail, UserModel.findOne, UserModel.save.
  unfold_monad. rewrite Hmail. cbn [fst snd]. cbn [store emit]. rewrite Hfind.
  cbn. unfold stored_refresh_token. cbn. by rewrite lookup_insert_eq.
Qed.

(** C2 at a repeated consent that delivers no refresh token: the handler of
    [src/config/passport.js] stores the delivered value, so Alice's refresh
    token is gone afterwards; the other copy of the handler keeps it. *)
Theorem consent_without_refresh_token_clears_it :
  stored_refresh_token Sample.evening "u1" = Some "rt-1" ∧
  stored_refresh_token
    (Passport.verify "at-9" None Sample.aliceProfile "u9" Sample.evening).2 "u1" = None ∧
  stored_refresh_token
    (PassportPreserving.verify "at-9" None Sample.aliceProfile "u9" Sample.evening).2 "u1"
  = Some "rt-1".
Proof. vm_compute. repeat split; reflexivity. Qed.

(** ** Failure kinds of [refreshToken] *)

(** C4 at Bob, who has no refresh token on file.  [refreshToken] does read the
    store (an entry in the token cache naming a refresh token changes
    nothing) and makes no exchange, but what reaches the caller is
    [refreshFailed], the very error of a rejected exchange (Carol), not the
    error raised at line 227; [setupClient] passes it on. *)
Theorem missing_refresh_token_surfaces_as_refresh_failed :
  stored_refresh_token Sample.staleCache "u2" = None ∧
  (GoogleApiService.refreshToken Sample.provider "u2" None Sample.staleCache).1
    = Throw refreshFailed ∧
  log (GoogleApiService.refreshToken Sample.provider "u2" None Sample.staleCache).2
    = [EvFindById "u2"] ∧
  (GoogleApiService.refreshToken Sample.provider "u3" None Sample.evening).1
    = Throw refreshFailed ∧
  (GoogleApiService.setupClient Sample.provider "u2" None Sample.evening).1
    = Throw refreshFailed ∧
  refreshFailed ≠ noRefreshToken.
Proof. vm_compute. repeat split; try reflexivity. discriminate. Qed.

(** ** Fetching messages *)

Section Emails.
Variable P : Provider.

Lemma fetchOne_run message w :
  GoogleApiService.fetchOne P message w = (Ok (fetched P message), emit (EvMessagesGet (msg_id message)) w).
Proof.
  unfold GoogleApiService.fetchOne, fetched. unfold_monad.
  destruct (messages_get P (msg_id message)); reflexivity.
Qed.

(** Fetching a list of messages never throws: each message yields its details
    or [None], in order. *)
Lemma fetch_all_run messages w :
  mapM (GoogleApiService.fetchOne P) messages w =
    (Ok (fetched P <$> messages),
     foldl (λ w message, emit (EvMessagesGet (msg_id message)) w) w messages).
Proof.
  revert w. induction messages as [|message messages IH]; intros w; [reflexivity|].
  cbn [mapM]. unfold mbind at 1, M_bind. rewrite fetchOne_run.
  unfold mbind at 1, M_bind. rewrite IH. reflexivity.
Qed.

Lemma omap_id_fmap {A B} (f : A → option B) (l : list A) :
  omap (λ e : option B, e) (f <$> l) = omap f l.
Proof. induction l as [|a l IH]; [done|]. cbn. destruct (f a); by rewrite IH. Qed.

Lemma omap_length_le {A B} (f : A → option B) (l : list A) :
  (length (omap f l) ≤ length l)%nat.
Proof. induction l as [|a l IH]; cbn; [lia|]. destruct (f a); cbn; lia. Qed.

(** C10. Once the client is set up and the listing answers with messages,
    [getEmails] returns the details of exactly those of the first
    [maxResults] listed messages whose fetch succeeded, in listing order; a
    failed fetch only drops that message. *)
Theorem getEmails_omits_failed_fetches uid q maxResults w c w1 messages :
  GoogleApiService.setupClient P uid None w = (Ok c, w1) →
  messages_list P q (Js.min maxResults (Fin 50)) = inr (Some messages) →
  (GoogleApiService.getEmails P uid q maxResults w).1
    = Ok (omap (fetched P) (Js.slice0 maxResults messages)) ∧
  (∀ z, maxResults = Fin z → (0 ≤ z)%Z →
        omap (fetched P) (Js.slice0 maxResults messages)
          = omap (fetched P) (take (Z.to_nat z) messages) ∧
        (length (omap (fetched P) (Js.slice0 maxResults messages)) ≤ Z.to_nat z)%nat).
Proof.
  intros Hsetup Hlist. split.
  - unfold GoogleApiService.getEmails.
    unfold try_catch at 1. unfold mbind at 1, M_bind. rewrite Hsetup.
    unfold mbind at 1, M_bind. unfold call at 1. rewrite Hlist.
    unfold mbind at 1, M_bind.
    rewrite fetch_all_run. cbn. by rewrite omap_id_fmap.
  - intros z -> Hz. unfold Js.slice0.
    destruct (Z.ltb_spec z 0); [lia|]. split; [reflexivity|].
    etransitivity; [apply omap_length_le|]. rewrite length_take. lia.
Qed.

End Emails.

(** Three messages are listed and the fetch of the second one fails. *)
Lemma getEmails_omits_failed_fetches_witness :
  (GoogleApiService.getEmails Sample.provider "u1" "" (Fin 10) Sample.morning).1
  = Ok [mkEmail "m1" "hello"; mkEmail "m3" "hello"].
Proof.
  assert (∃ c w1, GoogleApiService.setupClient Sample.provider "u1" None Sample.morning
                  = (Ok c, w1)) as (c & w1 & E)
    by (vm_compute; eexists _, _; reflexivity).
  exact (proj1 (getEmails_omits_failed_fetches Sample.provider "u1" "" (Fin 10)
                  Sample.morning c w1 _ E eq_refl)).
Defined.

(** ** Toggling a task *)

Section Toggle.
Variable P : Provider.

Lemma truthy_str_stored o :
  Js.truthy_str o = true → ∃ rt, o = Some rt ∧ rt ≠ "".
Proof.
  destruct o as [rt|]; [|discriminate]. cbn.
  destruct (String.eqb_spec rt ""); [discriminate|eauto].
Qed.

(** Neither loading the tokens nor a refresh calls the Tasks API. *)
Lemma loadTokens_tasks_calls uid w :
  tasks_calls (log (GoogleApiService.loadTokens uid w).2) = tasks_calls (log w).
Proof.
  unfold GoogleApiService.loadTokens, tokenCache.get, tokenCache.set, UserModel.findById.
  unfold_monad.
  destruct (cache w !! _) as [item|]; [destruct (now w <? expires item)%Z|];
    cbn -[String.append]; auto;
    (destruct (option_bind _ _ _ _) as [gt|];
     [destruct (Js.truthy_str (accessToken gt))|]);
    cbn -[String.append]; rewrite tasks_calls_app; cbn; by rewrite app_nil_r.
Qed.

Lemma refreshToken_tasks_calls uid req w :
  tasks_calls (log (GoogleApiService.refreshToken P uid req w).2) = tasks_calls (log w).
Proof.
  destruct (Js.truthy_str (stored_refresh_token w uid)) eqn:Hst.
  - destruct (truthy_str_stored _ Hst) as (rt & Hrt & Hne).
    pose proof (truthy_str_some _ Hne) as Ht.
    destruct (token_endpoint P rt) as [e|resp] eqn:Hep.
    + destruct (refreshToken_exchange_fails P uid req w rt e Hrt Ht Hep)
        as (w' & -> & _ & _ & _ & Hl & _).
      cbn [snd]. rewrite Hl, tasks_calls_app. cbn. by rewrite app_nil_r.
    + destruct (stored_refresh_token_user _ _ _ Hrt) as [u Hu].
      destruct (refreshToken_exchange_ok P uid req w u rt resp Hu Hrt Ht Hep)
        as (c & w1 & w' & l & _ & -> & _ & _ & _ & _ & _ & _ & Hl & Hl' & _).
      cbn [snd]. rewrite Hl, !tasks_calls_app.
      destruct Hl' as [-> | ->]; cbn; by rewrite app_nil_r.
  - rewrite (refreshToken_no_token P uid req w Hst). cbn [snd].
    cbn. rewrite tasks_calls_app. cbn. by rewrite app_nil_r.
Qed.

Lemma setupClient_tasks_calls uid req w :
  tasks_calls (log (GoogleApiService.setupClient P uid req w).2) = tasks_calls (log w).
Proof.
  unfold GoogleApiService.setupClient. unfold_monad.
  pose proof (loadTokens_tasks_calls uid w) as Hload.
  destruct (GoogleApiService.loadTokens uid w) as [[tokens|e] w1]; cbn [snd] in *;
    [|exact Hload].
  destruct (getOAuthClient_frame uid (Some tokens) w1)
    as (c & w2 & -> & _ & _ & _ & Hl & _).
  cbn -[Js.lt]. destruct (Js.lt _ _); [|cbn; by rewrite Hl].
  pose proof (refreshToken_tasks_calls uid req (set_oauth2Client (Some c) w2)) as Hr.
  destruct (GoogleApiService.refreshToken P uid req _) as [[?|?] w3];
    cbn [snd] in *; rewrite Hr; cbn; by rewrite Hl.
Qed.

(** A read of the task list that succeeds has called the Tasks API once, for
    the list. *)
Lemma getTasks_tasks_calls uid tasklist w tasks w1 :
  GoogleApiService.getTasks P uid tasklist w = (Ok tasks, w1) →
  tasks_calls (log w1) = tasks_calls (log w) ++ [EvTasksList tasklist 100].
Proof.
  unfold GoogleApiService.getTasks. unfold_monad.
  pose proof (setupClient_tasks_calls uid None w) as Hs.
  destruct (GoogleApiService.setupClient P uid None w) as [[c|e] w0];
    cbn [snd] in Hs; [|discriminate].
  destruct (tasks_list P tasklist); [discriminate|].
  intros [= _ <-]. cbn. by rewrite tasks_calls_app, Hs.
Qed.

(** The request body built from a task: the task id, the fields read carried
    over, the status flipped, and [completed] there exactly when the new
    status is ["completed"]. *)
Lemma toggle_body_fields currentTask tid t :
  let body := Js.spread [("id", JStr tid)] (TaskController.toggleUpdateData P currentTask t) in
  Js.get "id" body = Some (JStr tid) ∧
  Js.get "title" body = Some (Js.of_str (title currentTask)) ∧
  Js.get "notes" body
    = Some (JStr (if Js.truthy_str (notes currentTask)
                  then default "" (notes currentTask) else "")) ∧
  Js.get "due" body
    = (if Js.truthy_str (due currentTask)
       then Some (Js.of_str (due currentTask)) else None) ∧
  Js.get "parent" body
    = (if Js.truthy_str (parent currentTask)
       then Some (Js.of_str (parent currentTask)) else None) ∧
  (status currentTask = Some "completed" →
     Js.get "status" body = Some (JStr "needsAction") ∧
     Js.has "completed" body = false) ∧
  (status currentTask ≠ Some "completed" →
     Js.get "status" body = Some (JStr "completed") ∧
     Js.get "completed" body = Some (JStr (toISOString P t))).
Proof.
  unfold TaskController.toggleUpdateData, Js.or_str.
  destruct (notes currentTask) as [n|]; cbn [Js.truthy_str];
    [destruct (negb (String.eqb n ""))|];
    (destruct (Js.truthy_str (due currentTask));
     destruct (Js.truthy_str (parent currentTask));
     case_bool_decide; cbn;
     repeat split; auto; intros; try contradiction; try discriminate;
     repeat split; auto).
Qed.

(** C7. When the read finds the task and the client can be set up for the
    write, [toggleTaskCompletion] calls the Tasks API exactly twice: first
    the read of the list, then one update of the task, whose request body
    holds the task id and the payload built from the task it read: title,
    notes, due date and parent carried over, the status flipped; flipping to
    ["completed"] adds a [completed] timestamp taken from the clock, flipping
    to ["needsAction"] leaves the body without any [completed] key.  The
    answer is 200 with the updated task when the provider accepts the update
    and 500 when it rejects it. *)
Theorem toggleTaskCompletion_read_then_write
    uid tasklistId tid w tasks w1 currentTask c w2 :
  tid ≠ "" →
  GoogleApiService.getTasks P uid (TaskController.listOf tasklistId) w = (Ok tasks, w1) →
  List.find (λ task, String.eqb (id task) tid) tasks = Some currentTask →
  GoogleApiService.setupClient P uid None w1 = (Ok c, w2) →
  let tasklist := TaskController.listOf tasklistId in
  let payload := TaskController.toggleUpdateData P currentTask (now w1) in
  let body := Js.spread [("id", JStr tid)] payload in
  let r := TaskController.toggleTaskCompletion P uid tasklistId (Some tid) w in
  r.2 = emit (EvTasksUpdate tasklist tid body) w2 ∧
  tasks_calls (log r.2)
    = tasks_calls (log w) ++ [EvTasksList tasklist 100; EvTasksUpdate tasklist tid body] ∧
  r.1 = Ok match tasks_update P tasklist tid body with
           | inr task =>
               Json 200 (task,
                         "Task " +:+
                         (if bool_decide (status currentTask = Some "completed")
                          then "marked as incomplete" else "completed"))
           | inl _ => Next "Failed to toggle task completion" 500
           end ∧
  Js.get "id" body = Some (JStr tid) ∧
  Js.get "title" body = Some (Js.of_str (title currentTask)) ∧
  (∀ n, notes currentTask = Some n → Js.get "notes" body = Some (JStr n)) ∧
  (∀ d, due currentTask = Some d → d ≠ "" → Js.get "due" body = Some (JStr d)) ∧
  (∀ p, parent currentTask = Some p → p ≠ "" → Js.get "parent" body = Some (JStr p)) ∧
  (status currentTask = Some "needsAction" →
     Js.get "status" body = Some (JStr "completed") ∧
     Js.get "completed" body = Some (JStr (toISOString P (now w1)))) ∧
  (status currentTask = Some "completed" →
     Js.get "status" body = Some (JStr "needsAction") ∧
     Js.has "completed" body = false).
Proof.
  intros Hne Hread Hfind Hsetup tasklist payload body r.
  destruct (toggle_body_fields currentTask tid (now w1))
    as (Hid & Htitle & Hnotes & Hdue & Hparent & Hdone & Htodo).
  fold payload in Hid, Htitle, Hnotes, Hdue, Hparent, Hdone, Htodo.
  fold body in Hid, Htitle, Hnotes, Hdue, Hparent, Hdone, Htodo.
  assert (r = (Ok match tasks_update P tasklist tid body with
                  | inr task =>
                      Json 200 (task,
                                "Task " +:+
                                (if bool_decide (status currentTask = Some "completed")
                                 then "marked as incomplete" else "completed"))
                  | inl _ => Next "Failed to toggle task completion" 500
                  end,
               emit (EvTasksUpdate tasklist tid body) w2)) as Hr.
  { subst r. unfold body, payload, tasklist.
    unfold TaskController.toggleTaskCompletion.
    destruct (String.eqb_spec tid ""); [contradiction|].
    unfold try_catch at 1. unfold mbind at 1, M_bind.
    rewrite Hread, Hfind.
    unfold mbind at 1, M_bind. unfold gets at 1.
    unfold mbind at 1, M_bind.
    unfold GoogleApiService.updateTask.
    unfold try_catch, mbind, M_bind, call. rewrite Hsetup.
    destruct (tasks_update P _ tid _); reflexivity. }
  rewrite Hr. cbn [fst snd].
  split; [reflexivity|]. split.
  { cbn [log emit]. rewrite tasks_calls_app.
    pose proof (getTasks_tasks_calls uid tasklist w tasks w1 Hread) as Hl.
    pose proof (setupClient_tasks_calls uid None w1) as Hl2.
    rewrite Hsetup in Hl2. cbn [snd] in Hl2. rewrite Hl2, Hl.
    rewrite <- app_assoc. reflexivity. }
  split; [reflexivity|].
  split; [exact Hid|]. split; [exact Htitle|].
  split; [|split; [|split; [|split]]].
  - intros n Hn. rewrite Hnotes, Hn. cbn.
    destruct (String.eqb_spec n ""); cbn; congruence.
  - intros d Hd Hd'. rewrite Hdue, Hd, (truthy_str_some _ Hd'). reflexivity.
  - intros p Hp Hp'. rewrite Hparent, Hp, (truthy_str_some _ Hp'). reflexivity.
  - intros Hs. apply Htodo. rewrite Hs. discriminate.
  - exact Hdone.
Qed.

End Toggle.

(** Toggling the open task of the sample list: the list is read, then the
    task is updated. *)
Lemma toggleTaskCompletion_read_then_write_witness :
  let body :=
    Js.spread [("id", JStr "t1")]
      (TaskController.toggleUpdateData Sample.provider Sample.groceries 1000000) in
  tasks_calls
    (log (TaskController.toggleTaskCompletion Sample.provider "u1" None (Some "t1")
            Sample.morning).2)
  = [EvTasksList "@default" 100; EvTasksUpdate "@default" "t1" body] ∧
  Js.get "status" body = Some (JStr "completed") ∧
  Js.get "completed" body = Some (JStr "2024-01-02T00:00:00.000Z").
Proof.
  pose (w1 := (GoogleApiService.getTasks Sample.provider "u1" (TaskController.listOf None)
                 Sample.morning).2).
  assert (GoogleApiService.getTasks Sample.provider "u1" (TaskController.listOf None)
            Sample.morning = (Ok [Sample.groceries; Sample.laundry], w1)) as E
    by (vm_compute; reflexivity).
  assert (now w1 = 1000000%Z) as Hnow by (vm_compute; reflexivity).
  assert (∃ c w2, GoogleApiService.setupClient Sample.provider "u1" None w1 = (Ok c, w2))
    as (c & w2 & E2) by (vm_compute; eexists _, _; reflexivity).
  pose proof (toggleTaskCompletion_read_then_write Sample.provider "u1" None "t1"
                Sample.morning _ w1 Sample.groceries c w2 ltac:(discriminate)
                E eq_refl E2) as H.
  cbn zeta in H. rewrite Hnow in H.
  destruct H as (_ & Hcalls & _ & _ & _ & _ & _ & _ & Htodo & _).
  split; [exact Hcalls|]. exact (Htodo eq_refl).
Defined.


(** * Further properties *)

(** ** The token cache over time *)

(** X1. An entry set at one time and read at a later time [t]: it is served as
    long as [t] is before the instant of the [set] plus the lifetime; from
    that instant on the read answers [null] and removes the entry. *)
Theorem tokenCache_set_get_ttl key v ttl t w :
  let w1 := set_now t (tokenCache.set key v ttl w).2 in
  ((t < now w + lifetime ttl)%Z → tokenCache.get key w1 = (Ok (Some v), w1)) ∧
  ((now w + lifetime ttl ≤ t)%Z →
     (tokenCache.get key w1).1 = Ok None ∧
     cache (tokenCache.get key w1).2 !! key = None).
Proof.
  unfold tokenCache.set, tokenCache.get, lifetime. cbn.
  rewrite lookup_insert_eq. cbn.
  split; intros H.
  - destruct (ttl =? 0)%Z;
      (destruct (Z.ltb_spec t (now w + 3600000)); [reflexivity|lia]) ||
      (destruct (Z.ltb_spec t (now w + ttl * 1000)); [reflexivity|lia]).
  - destruct (ttl =? 0)%Z.
    + destruct (Z.ltb_spec t (now w + 3600000)); [lia|]. cbn.
      split; [reflexivity|apply lookup_delete_eq].
    + destruct (Z.ltb_spec t (now w + ttl * 1000)); [lia|]. cbn.
      split; [reflexivity|apply lookup_delete_eq].
Qed.

(** ** More on the client pool *)

Lemma JsMap_get_None {V} k (m : list (string * V)) :
  JsMap.get k m = None ↔ k ∉ m.*1.
Proof.
  induction m as [|[k' v'] m IH]; cbn.
  - split; [intros _; apply not_elem_of_nil|done].
  - rewrite not_elem_of_cons. destruct (String.eqb_spec k k') as [->|Hne].
    + split; [discriminate|intros [? _]; congruence].
    + rewrite IH. tauto.
Qed.

Lemma JsMap_set_fresh {V} k (v : V) m :
  JsMap.get k m = None → JsMap.set k v m = m ++ [(k, v)].
Proof.
  induction m as [|[k' v'] m IH]; cbn; [done|].
  destruct (String.eqb k k'); [discriminate|]. intros H. by rewrite IH.
Qed.

Lemma JsMap_get_snoc {V} k (v : V) m :
  JsMap.get k m = None → JsMap.get k (m ++ [(k, v)]) = Some v.
Proof.
  induction m as [|[k' v'] m IH]; cbn.
  - by rewrite String.eqb_refl.
  - destruct (String.eqb k k'); [discriminate|exact IH].
Qed.

Lemma JsMap_evict_first_tail {V} (m : list (string * V)) :
  JsMap.delete_opt (JsMap.first_key m) m = tail m.
Proof. destruct m as [|[k v] m]; cbn; [done|]. by rewrite String.eqb_refl. Qed.

Lemma JsMap_get_tail_None {V} k (m : list (string * V)) :
  JsMap.get k m = None → JsMap.get k (tail m) = None.
Proof.
  destruct m as [|[k' v'] m]; cbn; [done|]. by destruct (String.eqb k k').
Qed.

(** What [getOAuthClient] does to the world when the user has no pooled
    client: a new object at an unused address, holding the tokens given; the
    oldest entry leaves the pool when the pool holds more than 100, and the
    new entry goes to the end. *)
Lemma getOAuthClient_miss uid t w :
  JsMap.get ("oauth_" +:+ uid) (oauthClientPool w) = None →
  let c := fresh (dom (heap w)) in
  GoogleApiService.getOAuthClient uid t w =
    (Ok c,
     set_pool (λ _, (if (100 <? length (oauthClientPool w))%nat
                     then tail (oauthClientPool w) else oauthClientPool w)
                    ++ [("oauth_" +:+ uid, c)])
       (set_heap (λ _, <[c := mkClient (default (mkTokens None None None None) t)]>
                         (heap w)) w)).
Proof.
  intros Hmiss c.
  unfold GoogleApiService.getOAuthClient, GoogleApiService.setCredentials,
    GoogleApiService.newOAuth2.
  unfold_monad. rewrite Hmiss. fold c.
  destruct t as [tk|]; cbn -[String.append Nat.ltb fresh]; unfold JsMap.size;
    destruct (100 <? length (oauthClientPool w))%nat;
    unfold set_pool, set_heap;
    cbn -[String.append fresh JsMap.delete_opt JsMap.first_key JsMap.set];
    rewrite ?JsMap_evict_first_tail, ?insert_insert_eq;
    rewrite JsMap_set_fresh by (try apply JsMap_get_tail_None; exact Hmiss);
    reflexivity.
Qed.

Lemma getOAuthClient_hit uid t w c :
  JsMap.get ("oauth_" +:+ uid) (oauthClientPool w) = Some c →
  GoogleApiService.getOAuthClient uid t w =
    (Ok c, match t with
           | Some tk => set_heap (insert c (mkClient tk)) w
           | None => w
           end).
Proof.
  intros Hhit.
  unfold GoogleApiService.getOAuthClient, GoogleApiService.setCredentials.
  unfold_monad. rewrite Hhit. by destruct t.
Qed.

(** X2. Acquiring a client twice for one user: the second call hands out the
    very client of the first and leaves the pool as the first call left it;
    the client holds the tokens of the second call when it brings tokens, and
    is not touched when it brings none. *)
Theorem getOAuthClient_twice_same_client uid t t' w :
  let r1 := GoogleApiService.getOAuthClient uid t w in
  let r2 := GoogleApiService.getOAuthClient uid t' r1.2 in
  ∃ c, r1.1 = Ok c ∧ r2.1 = Ok c ∧
       oauthClientPool r2.2 = oauthClientPool r1.2 ∧
       match t' with
       | Some tk => heap r2.2 !! c = Some (mkClient tk)
       | None => heap r2.2 = heap r1.2
       end.
Proof.
  cbn zeta.
  destruct (JsMap.get ("oauth_" +:+ uid) (oauthClientPool w)) as [c|] eqn:Hget.
  - rewrite (getOAuthClient_hit uid t w c Hget). cbn [fst snd].
    assert (JsMap.get ("oauth_" +:+ uid)
              (oauthClientPool match t with
                               | Some tk => set_heap (insert c (mkClient tk)) w
                               | None => w
                               end) = Some c) as Hget'
      by (destruct t; exact Hget).
    rewrite (getOAuthClient_hit uid t' _ c Hget'). exists c.
    destruct t'; cbn; [rewrite lookup_insert_eq|]; destruct t; auto.
  - rewrite (getOAuthClient_miss uid t w Hget). cbn [fst snd].
    set (c := fresh (dom (heap w))).
    match goal with |- context [GoogleApiService.getOAuthClient uid t' ?w1] =>
      assert (JsMap.get ("oauth_" +:+ uid) (oauthClientPool w1) = Some c) as Hget'
    end.
    { cbn -[String.append Nat.ltb]. apply JsMap_get_snoc.
      destruct (100 <? _)%nat; [by apply JsMap_get_tail_None|done]. }
    rewrite (getOAuthClient_hit uid t' _ c Hget'). exists c.
    destruct t'; cbn -[String.append]; [rewrite lookup_insert_eq|]; auto.
Qed.

(** X3. A user without a pooled client arrives: the client made for him sits
    at an address no object had, the pool gains his entry at the end, and when
    the pool held more than 100 entries the oldest one (the first inserted)
    is the one that leaves; all other entries keep their order. *)
Theorem getOAuthClient_evicts_oldest uid t w :
  JsMap.get ("oauth_" +:+ uid) (oauthClientPool w) = None →
  let r := GoogleApiService.getOAuthClient uid t w in
  ∃ c, r.1 = Ok c ∧ heap w !! c = None ∧
       oauthClientPool r.2 =
         (if (100 <? length (oauthClientPool w))%nat
          then tail (oauthClientPool w) else oauthClientPool w)
         ++ [("oauth_" +:+ uid, c)].
Proof.
  intros Hmiss r. subst r. rewrite (getOAuthClient_miss uid t w Hmiss).
  eexists. split; [reflexivity|]. split; [|reflexivity].
  apply not_elem_of_dom, is_fresh.
Qed.

Lemma NoDup_tail {A} (l : list A) : NoDup l → NoDup (tail l).
Proof. destruct l; [done|]. cbn. by intros [_ ?]%NoDup_cons. Qed.

Lemma elem_of_tail {A} (x : A) (l : list A) : x ∈ tail l → x ∈ l.
Proof. destruct l; [done|]. cbn. rewrite elem_of_cons. auto. Qed.

Lemma fmap_tail {A B} (f : A → B) (l : list A) : f <$> tail l = tail (f <$> l).
Proof. by destruct l. Qed.

Lemma length_tail_le {A} (l : list A) : (length (tail l) = pred (length l))%nat.
Proof. by destruct l. Qed.

(** One [getOAuthClient] keeps the pool in shape. *)
Lemma getOAuthClient_pool_ok uid t w :
  pool_ok w → pool_ok (GoogleApiService.getOAuthClient uid t w).2.
Proof.
  intros (Hlen & Hkeys & Hcs & Hlive).
  destruct (JsMap.get ("oauth_" +:+ uid) (oauthClientPool w)) as [c|] eqn:Hget.
  - rewrite (getOAuthClient_hit uid t w c Hget). cbn [snd].
    destruct t as [tk|]; [|done].
    repeat split; cbn; auto. intros c' Hc'.
    destruct (decide (c = c')) as [->|Hne];
      [rewrite lookup_insert_eq; eauto|rewrite lookup_insert_ne by done; auto].
  - rewrite (getOAuthClient_miss uid t w Hget). cbn [snd].
    set (c := fresh (dom (heap w))).
    assert (heap w !! c = None) as Hc by apply not_elem_of_dom, is_fresh.
    assert (c ∉ (oauthClientPool w).*2) as Hcnew.
    { intros Hin. apply Hlive in Hin. rewrite Hc in Hin. by destruct Hin. }
    apply JsMap_get_None in Hget.
    unfold pool_ok. cbn -[String.append Nat.ltb].
    destruct (Nat.ltb_spec 100 (length (oauthClientPool w))).
    + rewrite !fmap_app, !fmap_tail, length_app, length_tail_le. cbn -[String.append].
      split; [lia|]. split; [|split].
      * apply NoDup_app. split; [by apply NoDup_tail|]. split; [|apply NoDup_singleton].
        intros k Hk%elem_of_tail ->%list_elem_of_singleton. contradiction.
      * apply NoDup_app. split; [by apply NoDup_tail|]. split; [|apply NoDup_singleton].
        intros k Hk%elem_of_tail ->%list_elem_of_singleton. contradiction.
      * intros c' [Hc'%elem_of_tail| ->%list_elem_of_singleton]%elem_of_app.
        -- destruct (decide (c = c')) as [->|Hne]; [contradiction|].
           rewrite lookup_insert_ne by done. auto.
        -- rewrite lookup_insert_eq. eauto.
    + rewrite !fmap_app, length_app. cbn -[String.append].
      split; [lia|]. split; [|split].
      * apply NoDup_app. split; [done|]. split; [|apply NoDup_singleton].
        intros k Hk ->%list_elem_of_singleton. contradiction.
      * apply NoDup_app. split; [done|]. split; [|apply NoDup_singleton].
        intros k Hk ->%list_elem_of_singleton. contradiction.
      * intros c' [Hc'| ->%list_elem_of_singleton]%elem_of_app.
        -- destruct (decide (c = c')) as [->|Hne]; [contradiction|].
           rewrite lookup_insert_ne by done. auto.
        -- rewrite lookup_insert_eq. eauto.
Qed.

(** X4. However many clients are acquired, and for whichever users: the pool
    never holds more than 101 entries, never two entries for one key, never
    one client object under two keys, and every entry is an existing client
    object. *)
Theorem acquireAll_pool_ok calls w :
  pool_ok w → pool_ok (acquireAll calls w).
Proof.
  revert w. induction calls as [|call calls IH]; intros w Hok; [exact Hok|].
  cbn. apply IH. by apply getOAuthClient_pool_ok.
Qed.

Lemma pool_ok_empty w : oauthClientPool w = [] → pool_ok w.
Proof.
  intros H. unfold pool_ok. rewrite H. cbn.
  split; [lia|]. split; [constructor|]. split; [constructor|].
  intros c Hc. by apply elem_of_nil in Hc.
Qed.

Lemma pool_ok_frame w w' :
  oauthClientPool w' = oauthClientPool w →
  (∀ c, is_Some (heap w !! c) → is_Some (heap w' !! c)) →
  pool_ok w → pool_ok w'.
Proof.
  intros Hp Hh (Hlen & Hkeys & Hcs & Hlive). unfold pool_ok. rewrite Hp.
  repeat split; auto.
Qed.

Lemma is_Some_insert_mono (h : gmap nat Client) c x c' :
  is_Some (h !! c') → is_Some (<[c := x]> h !! c').
Proof.
  intros H. destruct (decide (c = c')) as [->|Hne];
    [rewrite lookup_insert_eq; eauto|by rewrite lookup_insert_ne].
Qed.

Lemma loadTokens_pool uid w :
  oauthClientPool (GoogleApiService.loadTokens uid w).2 = oauthClientPool w ∧
  heap (GoogleApiService.loadTokens uid w).2 = heap w.
Proof.
  unfold GoogleApiService.loadTokens, tokenCache.get, tokenCache.set, UserModel.findById.
  unfold_monad.
  destruct (cache w !! _) as [item|]; [destruct (now w <? expires item)%Z|];
    cbn -[String.append]; auto;
    (destruct (option_bind _ _ _ _) as [gt|];
     [destruct (Js.truthy_str (accessToken gt))|]); cbn -[String.append]; auto.
Qed.

Section PoolShape.
Variable P : Provider.

Lemma refreshToken_pool_ok uid req w :
  pool_ok w → pool_ok (GoogleApiService.refreshToken P uid req w).2.
Proof.
  intros Hok.
  pose proof (getOAuthClient_pool_ok uid None (emit (EvFindById uid) w)
                ltac:(by apply (pool_ok_frame w))) as Hstep.
  destruct (Js.truthy_str (stored_refresh_token w uid)) eqn:Hst.
  - destruct (truthy_str_stored _ Hst) as (rt & Hrt & Hne).
    pose proof (truthy_str_some _ Hne) as Ht.
    destruct (token_endpoint P rt) as [e|resp] eqn:Hep.
    + destruct (refreshToken_exchange_fails P uid req w rt e Hrt Ht Hep)
        as (w' & -> & _ & _ & _ & _ & c & w1 & Hget & Hp & Hh).
      rewrite Hget in Hstep. cbn [snd] in *.
      apply (pool_ok_frame w1); [exact Hp| |exact Hstep].
      intros c' Hc'. rewrite Hh. by apply is_Some_insert_mono.
    + destruct (stored_refresh_token_user _ _ _ Hrt) as [u Hu].
      destruct (refreshToken_exchange_ok P uid req w u rt resp Hu Hrt Ht Hep)
        as (c & w1 & w' & l & Hget & -> & _ & _ & _ & Hp & Hh & _).
      rewrite Hget in Hstep. cbn [snd] in *.
      apply (pool_ok_frame w1); [exact Hp| |exact Hstep].
      intros c' Hc'. rewrite Hh. by apply is_Some_insert_mono.
  - rewrite (refreshToken_no_token P uid req w Hst). cbn [snd].
    by apply (pool_ok_frame w).
Qed.

(** X5. [setupClient] keeps the pool in shape, whether it succeeds, refreshes
    or fails. *)
Theorem setupClient_pool_ok uid req w :
  pool_ok w → pool_ok (GoogleApiService.setupClient P uid req w).2.
Proof.
  intros Hok. unfold GoogleApiService.setupClient. unfold_monad.
  destruct (loadTokens_pool uid w) as [Hp Hh].
  destruct (GoogleApiService.loadTokens uid w) as [[tokens|e] w1]; cbn [snd] in *;
    [|apply (pool_ok_frame w); [done|by rewrite Hh|done]].
  assert (pool_ok w1) as Hok1 by (apply (pool_ok_frame w); [done|by rewrite Hh|done]).
  pose proof (getOAuthClient_pool_ok uid (Some tokens) w1 Hok1) as Hstep.
  destruct (GoogleApiService.getOAuthClient uid (Some tokens) w1) as [[c|e] w2];
    cbn [snd] in Hstep; [|exact Hstep].
  cbn -[Js.lt]. destruct (Js.lt _ _); [|by apply (pool_ok_frame w2)].
  pose proof (refreshToken_pool_ok uid req (set_oauth2Client (Some c) w2)) as Hr.
  destruct (GoogleApiService.refreshToken P uid req _) as [[?|?] w3];
    cbn [snd] in *; apply Hr; by apply (pool_ok_frame w2).
Qed.

End PoolShape.

(** ** [setupClient] case by case *)

(** The snapshot [loadTokens] builds from a stored credential (lines
    117-122). *)
Lemma loadTokens_hit uid w item :
  cache w !! ("tokens_" +:+ uid) = Some item →
  (now w < expires item)%Z →
  GoogleApiService.loadTokens uid w = (Ok (value item), w).
Proof.
  intros Hc Hlive. unfold GoogleApiService.loadTokens, tokenCache.get.
  unfold_monad. rewrite Hc.
  destruct (Z.ltb_spec (now w) (expires item)); [reflexivity|lia].
Qed.

Lemma getOAuthClient_with_tokens uid tk w :
  ∃ c w', GoogleApiService.getOAuthClient uid (Some tk) w = (Ok c, w') ∧
    heap w' !! c = Some (mkClient tk) ∧
    JsMap.get ("oauth_" +:+ uid) (oauthClientPool w') = Some c ∧
    store w' = store w ∧ cache w' = cache w ∧ reqs w' = reqs w ∧
    log w' = log w ∧ now w' = now w.
Proof.
  destruct (JsMap.get ("oauth_" +:+ uid) (oauthClientPool w)) as [c|] eqn:Hget.
  - rewrite (getOAuthClient_hit uid (Some tk) w c Hget).
    eexists _, _. split; [reflexivity|]. cbn -[String.append].
    rewrite lookup_insert_eq. auto 10.
  - rewrite (getOAuthClient_miss uid (Some tk) w Hget).
    eexists _, _. split; [reflexivity|]. cbn -[String.append Nat.ltb fresh].
    rewrite lookup_insert_eq. split; [done|]. split; [|auto 10].
    apply JsMap_get_snoc.
    destruct (100 <? _)%nat; [by apply JsMap_get_tail_None|done].
Qed.

Lemma loadTokens_miss uid w gt :
  (tokenCache.get ("tokens_" +:+ uid) w).1 = Ok None →
  (store w !! uid) ≫= googleTokens = Some gt →
  Js.truthy_str (accessToken gt) = true →
  ∃ w1,
    GoogleApiService.loadTokens uid w
      = (Ok (mkTokens (accessToken gt) (refreshToken gt)
                      (match accessTokenExpiry gt with
                       | Some d => Some d
                       | None => expiryDate gt
                       end) None), w1) ∧
    store w1 = store w ∧
    cache w1 !! ("tokens_" +:+ uid)
      = Some (mkCacheItem
                (mkTokens (accessToken gt) (refreshToken gt)
                          (match accessTokenExpiry gt with
                           | Some d => Some d
                           | None => expiryDate gt
                           end) None) (now w + 3000000)) ∧
    log w1 = log w ++ [EvFindById uid] ∧ now w1 = now w.
Proof.
  intros Hmiss Hgt Hat.
  unfold GoogleApiService.loadTokens, UserModel.findById, tokenCache.set.
  unfold tokenCache.get in *. unfold_monad.
  change (option_bind _ _ googleTokens (store ?w !! uid))
    with (store w !! uid ≫= googleTokens) in *.
  destruct (cache w !! _) as [item|] eqn:Hc;
    [destruct (now w <? expires item)%Z; [discriminate|]|];
    cbn -[String.append] in *; rewrite Hgt, Hat;
    cbn -[String.append]; (eexists; split; [reflexivity|]);
    cbn -[String.append]; rewrite lookup_insert_eq; auto.
Qed.

Section Cases.
Variable P : Provider.

(** X6. No live cache entry and no stored access token: [setupClient] fails
    with the not-available error after one read of the store; it acquires no
    client, leaves store, pool and client objects as they were, puts nothing
    into the cache and calls no provider. *)
Theorem setupClient_not_authenticated uid req w :
  (tokenCache.get ("tokens_" +:+ uid) w).1 = Ok None →
  Js.truthy_str (((store w !! uid) ≫= googleTokens) ≫= accessToken) = false →
  let r := GoogleApiService.setupClient P uid req w in
  r.1 = Throw (Error "User not found or no Google tokens available") ∧
  log r.2 = log w ++ [EvFindById uid] ∧
  store r.2 = store w ∧
  oauthClientPool r.2 = oauthClientPool w ∧
  heap r.2 = heap w ∧
  oauth2Client r.2 = oauth2Client w ∧
  cache r.2 !! ("tokens_" +:+ uid) = None.
Proof.
  intros Hmiss Hno r. subst r.
  unfold GoogleApiService.setupClient, GoogleApiService.loadTokens, UserModel.findById.
  unfold tokenCache.get in *. unfold_monad.
  change (option_bind _ _ googleTokens (store ?w !! uid))
    with (store w !! uid ≫= googleTokens) in *.
  destruct (cache w !! _) as [item|] eqn:Hc;
    [destruct (now w <? expires item)%Z; [discriminate|]|];
    cbn -[String.append] in *;
    (destruct (store w !! uid ≫= googleTokens) as [gt|];
     [cbn in Hno; rewrite Hno|]); cbn -[String.append];
    rewrite ?lookup_delete_eq; auto 10.
Qed.

Lemma setupClient_cache_hit_run uid req w item :
  cache w !! ("tokens_" +:+ uid) = Some item →
  (now w < expires item)%Z →
  Js.lt (GoogleApiService.timeUntilExpiry (value item) (now w)) (Fin 300000) = false →
  let r := GoogleApiService.setupClient P uid req w in
  ∃ c, r.1 = Ok (Some c) ∧
       log r.2 = log w ∧ store r.2 = store w ∧ cache r.2 = cache w ∧
       oauth2Client r.2 = Some c ∧
       JsMap.get ("oauth_" +:+ uid) (oauthClientPool r.2) = Some c ∧
       heap r.2 !! c = Some (mkClient (value item)).
Proof.
  intros Hc Hlive Hfar r. subst r.
  unfold GoogleApiService.setupClient. unfold_monad.
  rewrite (loadTokens_hit uid w item Hc Hlive).
  destruct (getOAuthClient_with_tokens uid (value item) w)
    as (c & w1 & -> & Hh & Hp & Hs & Hca & _ & Hl & Hn).
  cbn -[String.append Js.lt]. rewrite Hn, Hfar. cbn -[String.append].
  exists c. auto 10.
Qed.

(** X7. A live cache entry with 5 minutes or more to go: [setupClient] answers
    from the cache alone.  Nothing is logged (no store read, no provider
    call), store and cache stay as they are, and the client returned is the
    user's pooled client, now holding the cached tokens. *)
Theorem setupClient_cache_hit uid req w item :
  cache w !! ("tokens_" +:+ uid) = Some item →
  (now w < expires item)%Z →
  Js.lt (GoogleApiService.timeUntilExpiry (value item) (now w)) (Fin 300000) = false →
  let r := GoogleApiService.setupClient P uid req w in
  ∃ c, r.1 = Ok (Some c) ∧
       log r.2 = log w ∧ store r.2 = store w ∧ cache r.2 = cache w ∧
       oauth2Client r.2 = Some c ∧
       JsMap.get ("oauth_" +:+ uid) (oauthClientPool r.2) = Some c ∧
       heap r.2 !! c = Some (mkClient (value item)).
Proof. exact (setupClient_cache_hit_run uid req w item). Qed.

(** X8. No live cache entry, a stored credential with an access token and 5
    minutes or more to go (or no expiry recorded): [setupClient] reads the
    store once, caches the snapshot for 50 minutes and returns the user's
    pooled client holding that snapshot; the snapshot's expiry is
    [accessTokenExpiry], or the legacy [expiryDate] when that one is
    missing. *)
Theorem setupClient_cache_miss uid req w gt :
  (tokenCache.get ("tokens_" +:+ uid) w).1 = Ok None →
  (store w !! uid) ≫= googleTokens = Some gt →
  Js.truthy_str (accessToken gt) = true →
  let snapshot :=
    mkTokens (accessToken gt) (refreshToken gt)
             (match accessTokenExpiry gt with
              | Some d => Some d
              | None => expiryDate gt
              end) None in
  Js.lt (GoogleApiService.timeUntilExpiry snapshot (now w)) (Fin 300000) = false →
  let r := GoogleApiService.setupClient P uid req w in
  ∃ c, r.1 = Ok (Some c) ∧
       log r.2 = log w ++ [EvFindById uid] ∧
       store r.2 = store w ∧
       cache r.2 !! ("tokens_" +:+ uid)
         = Some (mkCacheItem snapshot (now w + 3000000)) ∧
       JsMap.get ("oauth_" +:+ uid) (oauthClientPool r.2) = Some c ∧
       heap r.2 !! c = Some (mkClient snapshot).
Proof.
  intros Hmiss Hgt Hat snapshot Hfar r. subst r.
  destruct (loadTokens_miss uid w gt Hmiss Hgt Hat)
    as (w1 & Hload & Hs1 & Hc1 & Hl1 & Hn1).
  fold snapshot in Hload, Hc1.
  unfold GoogleApiService.setupClient. unfold_monad. rewrite Hload.
  destruct (getOAuthClient_with_tokens uid snapshot w1)
    as (c & w2 & -> & Hh & Hp & Hs & Hca & _ & Hl & Hn).
  cbn -[String.append Js.lt]. rewrite Hn, Hn1, Hfar. cbn -[String.append].
  exists c. rewrite Hl, Hl1, Hs, Hs1, Hca, Hc1. auto 10.
Qed.

End Cases.

(** ** Calling [setupClient] twice *)

Lemma loadTokens_ok_cache uid w tokens w1 :
  GoogleApiService.loadTokens uid w = (Ok tokens, w1) →
  ∃ item, cache w1 !! ("tokens_" +:+ uid) = Some item ∧ value item = tokens ∧
          (now w1 < expires item)%Z.
Proof.
  unfold GoogleApiService.loadTokens, UserModel.findById, tokenCache.set, tokenCache.get.
  unfold_monad.
  destruct (cache w !! _) as [item|] eqn:Hc;
    [destruct (Z.ltb_spec (now w) (expires item))|].
  - intros [= <- <-]. eauto.
  - cbn -[String.append].
    destruct (option_bind _ _ _ _) as [gt|]; [|discriminate].
    destruct (Js.truthy_str (accessToken gt)); [|discriminate].
    cbn -[String.append]. intros [= <- <-]. cbn -[String.append].
    rewrite lookup_insert_eq. eexists. split; [reflexivity|]. cbn. split; [done|lia].
  - cbn -[String.append].
    destruct (option_bind _ _ _ _) as [gt|]; [|discriminate].
    destruct (Js.truthy_str (accessToken gt)); [|discriminate].
    cbn -[String.append]. intros [= <- <-]. cbn -[String.append].
    rewrite lookup_insert_eq. eexists. split; [reflexivity|]. cbn. split; [done|lia].
Qed.

Section Twice.
Variable P : Provider.

(** After a [setupClient] that returned a client, the cache holds a live
    entry for the user with 5 minutes or more to go, provided the token
    endpoint grants at least 300 seconds. *)
Lemma setupClient_ok_leaves_fresh_cache uid req w c w' :
  GoogleApiService.setupClient P uid req w = (Ok c, w') →
  (∀ rt resp, token_endpoint P rt = inr resp →
              (300 ≤ Js.or_num (expires_in resp) 3600)%Z) →
  (∃ item, cache w' !! ("tokens_" +:+ uid) = Some item ∧
           (now w' < expires item)%Z ∧
           Js.lt (GoogleApiService.timeUntilExpiry (value item) (now w')) (Fin 300000)
             = false) ∧
  (exchanges (log w') ≤ S (exchanges (log w)))%nat.
Proof.
  intros Hrun Hgrant.
  pose proof (loadTokens_frame uid w) as Hf.
  destruct (GoogleApiService.loadTokens uid w) as [[tokens|e] w1] eqn:Hload.
  2:{ unfold GoogleApiService.setupClient in Hrun. unfold_monad.
      rewrite Hload in Hrun. discriminate. }
  destruct Hf as (Hs1 & Hn1 & He1).
  destruct (loadTokens_ok_cache uid w tokens w1 Hload) as (item & Hc1 & Hv & Hlive).
  unfold GoogleApiService.setupClient in Hrun. unfold_monad. rewrite Hload in Hrun.
  destruct (getOAuthClient_frame uid (Some tokens) w1)
    as (c0 & w2 & Hacq & Hs & Hc & Hr & Hl & Hn).
  rewrite Hacq in Hrun. cbn -[String.append Js.lt] in Hrun.
  rewrite Hn, Hn1 in Hrun.
  destruct (Js.lt (GoogleApiService.timeUntilExpiry tokens (now w)) (Fin 300000)) eqn:Hlt.
  - set (w2' := set_oauth2Client (Some c0) w2) in *.
    assert (∀ u, stored_refresh_token w2' u = stored_refresh_token w u) as Hst
      by (intros; unfold stored_refresh_token; cbn; by rewrite Hs, Hs1).
    destruct (Js.truthy_str (stored_refresh_token w2' uid)) eqn:Htr.
    2:{ rewrite (refreshToken_no_token P uid req w2' Htr) in Hrun. discriminate. }
    destruct (stored_refresh_token w2' uid) as [rt|] eqn:Hrt; [|discriminate].
    destruct (stored_refresh_token_user _ _ _ Hrt) as [u Hu].
    destruct (token_endpoint P rt) as [e|resp] eqn:Hep.
    + destruct (refreshToken_exchange_fails P uid req w2' rt e Hrt Htr Hep)
        as (w3 & Hrf & _).
      rewrite Hrf in Hrun. discriminate.
    + destruct (refreshToken_exchange_ok P uid req w2' u rt resp Hu Hrt Htr Hep)
        as (c' & w2'' & w3 & l & _ & Hrf & _ & Hc3 & _ & _ & _ & Hn3 & Hl3 & Hl3' & _).
      rewrite Hrf in Hrun. injection Hrun as _ <-.
      split.
      * eexists. split; [exact Hc3|]. cbn. rewrite Hn3. subst w2'. cbn.
        split; [lia|].
        destruct (Z.ltb_spec (now w2 + 3600 * 1000 - now w2) 300000);
          [lia|reflexivity].
      * rewrite Hl3, !exchanges_app. subst w2'. cbn [log set_oauth2Client].
        rewrite Hl, He1.
        destruct Hl3' as [-> | ->]; unfold exchanges at 2 3; cbn; lia.
  - injection Hrun as _ <-. cbn. rewrite Hc, Hn, Hl, He1. split; [|lia].
    exists item. rewrite Hv, Hn1. rewrite Hn1 in Hlive. auto.
Qed.

(** X9. Two [setupClient] calls in a row for one user, the first one returning
    a client: the second one returns the client as well and logs nothing, so
    it reads no store and makes no token exchange; both calls together make at
    most one exchange.  This needs the token endpoint to grant at least 300
    seconds ([expires_in] absent counts as 3600). *)
Theorem setupClient_twice_one_exchange uid req w c w' :
  GoogleApiService.setupClient P uid req w = (Ok c, w') →
  (∀ rt resp, token_endpoint P rt = inr resp →
              (300 ≤ Js.or_num (expires_in resp) 3600)%Z) →
  let r := GoogleApiService.setupClient P uid req w' in
  (∃ c', r.1 = Ok (Some c')) ∧
  log r.2 = log w' ∧
  (exchanges (log r.2) ≤ S (exchanges (log w)))%nat.
Proof.
  intros Hrun Hgrant r. subst r.
  destruct (setupClient_ok_leaves_fresh_cache uid req w c w' Hrun Hgrant)
    as ((item & Hc & Hlive & Hfar) & Hex).
  destruct (setupClient_cache_hit_run P uid req w' item Hc Hlive Hfar)
    as (c' & Hr & Hl & _).
  split; [eauto|]. split; [exact Hl|]. by rewrite Hl.
Qed.

End Twice.

(** ** What a refresh leaves behind *)

Lemma getOAuthClient_pooled uid t w :
  ∃ c w', GoogleApiService.getOAuthClient uid t w = (Ok c, w') ∧
    JsMap.get ("oauth_" +:+ uid) (oauthClientPool w') = Some c ∧
    store w' = store w ∧ cache w' = cache w ∧ reqs w' = reqs w ∧
    log w' = log w ∧ now w' = now w.
Proof.
  destruct (JsMap.get ("oauth_" +:+ uid) (oauthClientPool w)) as [c|] eqn:Hget.
  - rewrite (getOAuthClient_hit uid t w c Hget).
    eexists _, _. split; [reflexivity|]. destruct t; cbn -[String.append]; auto 10.
  - rewrite (getOAuthClient_miss uid t w Hget).
    eexists _, _. split; [reflexivity|]. cbn -[String.append Nat.ltb fresh].
    split; [|auto 10]. apply JsMap_get_snoc.
    destruct (100 <? _)%nat; [by apply JsMap_get_tail_None|done].
Qed.

Lemma apply_update_access_token t1 t2 tokens u :
  googleTokens (UserModel.apply_update (GoogleApiService.updateData t1 t2 tokens) u)
    ≫= accessToken
  = match access_token tokens with
    | Some a => Some a
    | None => googleTokens u ≫= accessToken
    end.
Proof.
  unfold GoogleApiService.updateData.
  destruct (Js.truthy_str (refresh_token tokens)); destruct (refresh_token tokens);
    destruct (access_token tokens); cbn; by destruct (googleTokens u).
Qed.

Lemma apply_update_no_refresh_token t1 t2 tokens u :
  Js.truthy_str (refresh_token tokens) = false →
  googleTokens (UserModel.apply_update (GoogleApiService.updateData t1 t2 tokens) u)
    ≫= refreshToken = googleTokens u ≫= refreshToken.
Proof.
  intros H. unfold GoogleApiService.updateData. rewrite H.
  destruct (access_token tokens); cbn; by destruct (googleTokens u).
Qed.

Lemma updates_single e : updates [e] = if is_update e then 1%nat else 0%nat.
Proof. unfold updates. simpl. by destruct (is_update e). Qed.

Section AfterRefresh.
Variable P : Provider.

(** X10. A refresh that succeeds.  [refreshToken] returns the answer of the
    token endpoint as the SDK hands it on, carrying the refresh token that
    was presented.  The store is written twice, by the listener and by
    [refreshToken] itself, and ends with the refresh token that was on file,
    whatever the answer brings; the access token on file is the answer's, and
    stays as it was when the answer has none.  The token cache entry and the
    user's pooled client, which is the service's current client, hold the
    answer's access token and the refresh token on file. *)
Theorem refreshToken_success_state uid req w rt resp :
  stored_refresh_token w uid = Some rt →
  rt ≠ "" →
  token_endpoint P rt = inr resp →
  let r := GoogleApiService.refreshToken P uid req w in
  let creds := refreshed (now w) rt resp in
  ∃ c item,
    r.1 = Ok creds ∧
    refresh_token creds = Some rt ∧
    stored_refresh_token r.2 uid = Some rt ∧
    ((store r.2 !! uid) ≫= googleTokens) ≫= accessToken
      = match access_token resp with
        | Some a => Some a
        | None => ((store w !! uid) ≫= googleTokens) ≫= accessToken
        end ∧
    updates (log r.2) = S (S (updates (log w))) ∧
    exchanges (log r.2) = S (exchanges (log w)) ∧
    cache r.2 !! ("tokens_" +:+ uid) = Some item ∧
    access_token (value item) = access_token resp ∧
    refresh_token (value item) = Some rt ∧
    oauth2Client r.2 = Some c ∧
    JsMap.get ("oauth_" +:+ uid) (oauthClientPool r.2) = Some c ∧
    heap r.2 !! c = Some (mkClient (mkTokens (access_token resp) (Some rt)
                                             (expiry_date creds) None)).
Proof.
  intros Hrt Hne He r creds. subst r.
  pose proof (truthy_str_some _ Hne) as Ht.
  destruct (stored_refresh_token_user _ _ _ Hrt) as [u Hu].
  destruct (refreshToken_exchange_ok P uid req w u rt resp Hu Hrt Ht He)
    as (c & w1 & w' & l & Hget & -> & Hs & Hc & Ho & Hp & Hh & Hn & Hl & Hl' & _).
  destruct (getOAuthClient_pooled uid None (emit (EvFindById uid) w))
    as (c0 & w0 & Hget0 & Hpool & _).
  rewrite Hget in Hget0. injection Hget0 as <- <-.
  exists c. eexists. cbn [fst snd].
  split; [reflexivity|]. split; [reflexivity|].
  unfold stored_refresh_token. rewrite Hs, lookup_insert_eq. cbn [mbind option_bind].
  split; [by rewrite apply_update_refresh_token|].
  split.
  { rewrite !apply_update_access_token, Hu. cbn [mbind option_bind].
    change (access_token (refreshed (now w) rt resp))
      with (access_token (GoogleApiService.withExpiryDate (now w) resp)).
    rewrite withExpiryDate_access_token. by destruct (access_token resp). }
  split.
  { rewrite Hl, !updates_app. destruct Hl' as [-> | ->]; unfold updates at 2 3; cbn; lia. }
  split.
  { rewrite Hl, !exchanges_app.
    destruct Hl' as [-> | ->]; unfold exchanges at 2 3; cbn; lia. }
  split; [exact Hc|]. split; [reflexivity|]. split; [reflexivity|].
  split; [exact Ho|].
  split; [by rewrite Hp|]. by rewrite Hh, lookup_insert_eq.
Qed.

End AfterRefresh.

(** ** [updateUserTokens] and the rest of the record *)

(** X11. [updateUserTokens] changes nothing but the token fields of the one
    user: every other record is as before, no record appears for a user the
    store does not know, and the user's identity, profile and granted scopes
    stay; the cache entry for the user is written in any case, also for an
    unknown user. *)
Theorem updateUserTokens_touches_only_tokens uid tokens req w :
  let w' := (GoogleApiService.updateUserTokens uid tokens req w).2 in
  (∀ k, k ≠ uid → store w' !! k = store w !! k) ∧
  (store w !! uid = None → store w' !! uid = None) ∧
  (∀ u, store w !! uid = Some u →
        ∃ u', store w' !! uid = Some u' ∧
              _id u' = _id u ∧ name u' = name u ∧ email u' = email u ∧
              googleId u' = googleId u ∧ profilePicture u' = profilePicture u ∧
              lastLogin u' = lastLogin u ∧
              (googleTokens u' ≫= (λ gt, Some (scope gt)))
                = Some (default [] (scope <$> googleTokens u))) ∧
  is_Some (cache w' !! ("tokens_" +:+ uid)) ∧
  oauthClientPool w' = oauthClientPool w ∧ heap w' = heap w.
Proof.
  cbn zeta.
  destruct (updateUserTokens_run uid tokens req w)
    as (w' & -> & Hs & Hc & Hh & Hp & _). cbn [snd].
  split; [|split; [|split; [|split]]].
  - intros k Hk. rewrite Hs. destruct (store w !! uid); [|done].
    by rewrite lookup_insert_ne.
  - intros Hnone. by rewrite Hs, Hnone.
  - intros u Hu. rewrite Hs, Hu, lookup_insert_eq. eexists. split; [reflexivity|].
    unfold GoogleApiService.updateData.
    destruct (Js.truthy_str (refresh_token tokens)); destruct (refresh_token tokens);
      destruct (access_token tokens); cbn;
      destruct (googleTokens u); cbn; auto 10.
  - rewrite Hc. eauto.
  - auto.
Qed.

(** ** The listener for tokens the SDK refreshed on its own *)

(** X12. The listener on an event nobody else writes to.  It never fails,
    whatever the event carries, and it writes the store once.  The cache
    entry written last holds the event's tokens as they came and expires
    with the event's [expiry_date], or one hour from now when the event has
    none.  When the event carries no refresh token (absent or empty) the
    refresh token on file stays as it is; when it carries one, that one is
    on file afterwards.  No other user's record changes. *)
Theorem onTokens_keeps_refresh_token uid newTokens w :
  let r := GoogleApiService.onTokens uid newTokens w in
  r.1 = Ok tt ∧
  cache r.2 !! ("tokens_" +:+ uid)
    = Some (mkCacheItem
              (mkTokens (access_token newTokens) (refresh_token newTokens)
                 (Some (match expiry_date newTokens with
                        | Some d => if (d =? 0)%Z then now w + 3600000 else d
                        | None => now w + 3600000
                        end)%Z) None)
              (now w + 3000000)) ∧
  (Js.truthy_str (refresh_token newTokens) = false →
     stored_refresh_token r.2 uid = stored_refresh_token w uid) ∧
  (Js.truthy_str (refresh_token newTokens) = true → is_Some (store w !! uid) →
     stored_refresh_token r.2 uid = refresh_token newTokens) ∧
  (∀ k, k ≠ uid → store r.2 !! k = store w !! k) ∧
  log r.2 = log w ++ [EvFindByIdAndUpdate uid].
Proof.
  intros r. subst r. unfold GoogleApiService.onTokens.
  destruct (onTokensWith_run uid newTokens newTokens w)
    as (w' & -> & Hs & Hc & _ & _ & _ & _ & Hl).
  cbn [fst snd]. split; [done|].
  split; [rewrite Hc, lookup_insert_eq; reflexivity|].
  unfold stored_refresh_token. rewrite Hs.
  split; [|split; [|split; [|exact Hl]]].
  - intros Habsent. destruct (store w !! uid) as [u|] eqn:Hu; [|by rewrite Hu].
    rewrite lookup_insert_eq. cbn [mbind option_bind].
    by apply apply_update_no_refresh_token.
  - intros Hthere [u Hu]. rewrite Hu, lookup_insert_eq. cbn [mbind option_bind].
    by apply apply_update_refresh_token.
  - intros k Hk. destruct (store w !! uid); [|done]. by rewrite lookup_insert_ne.
Qed.

(** ** Session sync *)

(** X13. [syncTokensWithSession] never fails and never writes to the store or
    the token cache, and it touches no request object but the one given.
    When that request's [user] carries the given user id (an id that is not
    empty) and the store has the user, the request's [user] becomes the
    stored record, after one read of the store.  In every other case nothing
    changes, except that the store has been read when only the stored user
    was missing. *)
Theorem syncTokensWithSession_only_own_session uid req w :
  let r := GoogleApiService.syncTokensWithSession uid req w in
  r.1 = Ok tt ∧ store r.2 = store w ∧ cache r.2 = cache w ∧
  (∀ a, req ≠ Some a → reqs r.2 !! a = reqs w !! a) ∧
  (∀ a u u', req = Some a → reqs w !! a ≫= user = Some u →
     _id u = uid → uid ≠ "" → store w !! uid = Some u' →
     reqs r.2 = <[a := mkReq (Some u')]> (reqs w) ∧
     log r.2 = log w ++ [EvFindById uid]) ∧
  (∀ a u, req = Some a → reqs w !! a ≫= user = Some u →
     _id u = uid → uid ≠ "" → store w !! uid = None →
     reqs r.2 = reqs w ∧ log r.2 = log w ++ [EvFindById uid]) ∧
  (∀ a u, req = Some a → reqs w !! a ≫= user = Some u →
     _id u ≠ uid ∨ uid = "" → r.2 = w) ∧
  (∀ a, req = Some a → reqs w !! a ≫= user = None → r.2 = w) ∧
  (req = None → r.2 = w).
Proof.
  cbn zeta.
  unfold GoogleApiService.syncTokensWithSession, UserModel.findById.
  unfold_monad.
  destruct req as [a0|]; [|cbn; split_and!; auto; discriminate].
  change (option_bind _ _ user (reqs w !! a0)) with (reqs w !! a0 ≫= user).
  assert (∀ (a : nat) (x : option User) (G : Prop),
            Some a0 = Some a → reqs w !! a ≫= user = x →
            (reqs w !! a0 ≫= user = x → a = a0 → G) → G) as Hsame.
  { intros a x G [= <-] Hx HG. by apply HG. }
  destruct (reqs w !! a0 ≫= user) as [u|] eqn:Hreq.
  2:{ cbn. split_and!; auto; try discriminate;
        intros; (eapply Hsame; [eassumption|eassumption|]); discriminate. }
  destruct (String.eqb_spec (_id u) "") as [Hempty|Hfull]; cbn [negb andb].
  { cbn. split_and!; auto; try discriminate;
      intros; (eapply Hsame; [eassumption|eassumption|]);
      intros [= <-] _; congruence. }
  destruct (String.eqb_spec (_id u) uid) as [Heq|Hneq].
  2:{ cbn. split_and!; auto; try discriminate;
        intros; (eapply Hsame; [eassumption|eassumption|]);
        intros [= <-] _; congruence. }
  destruct (store w !! uid) as [u'|] eqn:Hu; cbn; rewrite ?Hu.
  - split_and!; auto; try discriminate.
    all: try (intros a Ha; rewrite lookup_insert_ne; [done|congruence]).
    all: try by intros a u0 u'0 [= <-] _ _ _ [= <-].
    all: intros; (eapply Hsame; [eassumption|eassumption|]);
      try discriminate; intros [= <-] _;
      repeat match goal with H : _ ∨ _ |- _ => destruct H end; congruence.
  - split_and!; auto; try discriminate.
    all: intros; (eapply Hsame; [eassumption|eassumption|]);
      try discriminate; intros [= <-] _;
      repeat match goal with H : _ ∨ _ |- _ => destruct H end; congruence.
Qed.

(** ** The wrappers around provider calls *)

Lemma log_foldl_emit (f : MessageRef → Event) messages w :
  log (foldl (λ w message, emit (f message) w) w messages) = log w ++ (f <$> messages).
Proof.
  revert w. induction messages as [|m ms IH]; intros w; cbn.
  - by rewrite app_nil_r.
  - rewrite IH. cbn. by rewrite <- app_assoc.
Qed.

Section Wrappers.
Variable P : Provider.

(** X14. The provider calls of [getEmails], once the client is set up: one
    listing that asks for [min(maxResults, 50)] messages, then one fetch per
    message of [messages.slice(0, maxResults)], in listing order and whether
    or not earlier fetches failed.  A listing without [messages] gives the
    empty result and no fetch; a listing that fails makes [getEmails] fail
    with the provider's error and no fetch. *)
Theorem getEmails_calls uid q maxResults w c w1 :
  GoogleApiService.setupClient P uid None w = (Ok c, w1) →
  let r := GoogleApiService.getEmails P uid q maxResults w in
  let asked := Js.min maxResults (Fin 50) in
  (∀ z, maxResults = Fin z → ∃ z', asked = Fin z' ∧ (z' ≤ 50)%Z ∧ (z' ≤ z)%Z) ∧
  (∀ messages, messages_list P q asked = inr (Some messages) →
     log r.2 = log w1 ++ EvMessagesList q asked
                 :: ((λ m, EvMessagesGet (msg_id m)) <$> Js.slice0 maxResults messages)) ∧
  (messages_list P q asked = inr None →
     r.1 = Ok [] ∧ log r.2 = log w1 ++ [EvMessagesList q asked]) ∧
  (∀ e, messages_list P q asked = inl e →
     r.1 = Throw e ∧ log r.2 = log w1 ++ [EvMessagesList q asked]).
Proof.
  intros Hsetup r asked. subst r asked.
  split; [|split; [|split]].
  - intros z ->. cbn. eexists. split; [reflexivity|]. lia.
  - intros messages Hlist. unfold GoogleApiService.getEmails.
    unfold_monad. rewrite Hsetup, Hlist, fetch_all_run. cbn [snd].
    rewrite log_foldl_emit. cbn. by rewrite <- app_assoc.
  - intros Hlist. unfold GoogleApiService.getEmails.
    unfold_monad. rewrite Hsetup, Hlist. cbn. auto.
  - intros e Hlist. unfold GoogleApiService.getEmails.
    unfold_monad. rewrite Hsetup, Hlist. cbn. auto.
Qed.

(** X15. When [setupClient] fails, the wrappers fail with the same error and
    leave the world exactly as the failed [setupClient] left it: the provider
    is not called. *)
Theorem wrappers_stop_when_setupClient_fails uid w e w1 :
  GoogleApiService.setupClient P uid None w = (Throw e, w1) →
  (∀ q maxResults,
     GoogleApiService.getEmails P uid q maxResults w = (Throw e, w1)) ∧
  (∀ tasklistId, GoogleApiService.getTasks P uid tasklistId w = (Throw e, w1)) ∧
  (∀ taskId taskData tasklistId,
     GoogleApiService.updateTask P uid taskId taskData tasklistId w = (Throw e, w1)).
Proof.
  intros Hsetup. repeat split; intros;
    unfold GoogleApiService.getEmails, GoogleApiService.getTasks,
      GoogleApiService.updateTask;
    unfold try_catch at 1; unfold mbind at 1, M_bind; rewrite Hsetup; reflexivity.
Qed.

(** X16. [toggleTaskCompletion] always answers, it never throws.  Without a
    task id it answers 400 and does nothing; when reading the tasks fails it
    answers 500; when the list read has no task with that id it answers 404
    and stops there, so no update is sent. *)
Theorem toggleTaskCompletion_refusals uid tasklistId taskId w :
  let r := TaskController.toggleTaskCompletion P uid tasklistId taskId w in
  (∃ reply, r.1 = Ok reply) ∧
  (Js.truthy_str taskId = false →
     r = (Ok (Next "Task ID is required" 400), w)) ∧
  (∀ tid e w1, taskId = Some tid → tid ≠ "" →
     GoogleApiService.getTasks P uid (TaskController.listOf tasklistId) w = (Throw e, w1) →
     r = (Ok (Next "Failed to toggle task completion" 500), w1)) ∧
  (∀ tid tasks w1, taskId = Some tid → tid ≠ "" →
     GoogleApiService.getTasks P uid (TaskController.listOf tasklistId) w = (Ok tasks, w1) →
     (∀ task, task ∈ tasks → id task ≠ tid) →
     r = (Ok (Next "Task not found" 404), w1)).
Proof.
  cbn zeta. unfold TaskController.toggleTaskCompletion.
  split; [|split; [|split]].
  - destruct taskId as [tid|]; [|eauto].
    destruct (String.eqb tid ""); [eauto|].
    unfold try_catch, mbind, M_bind, gets.
    destruct (GoogleApiService.getTasks P uid _ w) as [[tasks|e] w1]; [|eauto].
    destruct (List.find _ tasks); [|eauto].
    destruct (GoogleApiService.updateTask P uid tid _ _ w1) as [[?|?] ?]; eauto.
  - destruct taskId as [tid|]; [|done]. cbn.
    destruct (String.eqb tid ""); [done|discriminate].
  - intros tid e w1 -> Hne Hread.
    destruct (String.eqb_spec tid ""); [contradiction|].
    unfold try_catch, mbind, M_bind. by rewrite Hread.
  - intros tid tasks w1 -> Hne Hread Hnone.
    destruct (String.eqb_spec tid ""); [contradiction|].
    unfold try_catch, mbind, M_bind. rewrite Hread.
    destruct (List.find _ tasks) as [task|] eqn:Hfind; [|reflexivity].
    apply List.find_some in Hfind as [Hin Heq].
    apply String.eqb_eq in Heq. apply list_elem_of_In in Hin.
    by destruct (Hnone task Hin).
Qed.

End Wrappers.

(** ** The consent handler on a store *)

(** ** The schema's pattern test

    [RegExp.test] decides what the pattern matches. *)

Lemma string_app_empty_inv s1 s2 : s1 +:+ s2 = "" → s1 = "" ∧ s2 = "".
Proof. destruct s1; [done|discriminate]. Qed.

Lemma string_app_cons_inv s1 s2 c s :
  s1 +:+ s2 = String c s →
  (s1 = "" ∧ s2 = String c s) ∨ ∃ s1', s1 = String c s1' ∧ s = s1' +:+ s2.
Proof.
  destruct s1 as [|c' s1']; cbn; [auto|]. intros [= -> <-]. right. eauto.
Qed.

Lemma RegExp_nullable_spec r : RegExp.nullable r = true ↔ RegExp.Matches r "".
Proof.
  split.
  - induction r; cbn; intros H; try discriminate.
    + constructor.
    + apply andb_true_iff in H as [H1 H2]. apply (RegExp.MSeq _ _ "" ""); auto.
    + apply orb_true_iff in H as [H|H]; [apply RegExp.MAltL|apply RegExp.MAltR]; auto.
    + constructor.
  - remember "" as s eqn:Hs. intros H. induction H; cbn; try discriminate; auto.
    + apply string_app_empty_inv in Hs as [-> ->]. rewrite IHMatches1, IHMatches2; auto.
    + rewrite IHMatches; auto.
    + rewrite IHMatches; auto. apply orb_true_r.
Qed.

Lemma RegExp_after_sound c r r' s :
  r' ∈ RegExp.after c r → RegExp.Matches r' s → RegExp.Matches r (String c s).
Proof.
  revert r' s. induction r as [|k|a IHa b IHb|a IHa b IHb|a IHa]; cbn; intros r' s Hin Hm.
  - by apply elem_of_nil in Hin.
  - destruct (RegExp.member k c) eqn:Hk; [|by apply elem_of_nil in Hin].
    apply list_elem_of_singleton in Hin as ->. inversion Hm; subst. by constructor.
  - apply elem_of_app in Hin as [Hin|Hin].
    + apply list_elem_of_fmap in Hin as (a' & -> & Hin).
      inversion Hm; subst. apply (RegExp.MSeq a b (String c _) _); eauto.
    + destruct (RegExp.nullable a) eqn:Hn; [|by apply elem_of_nil in Hin].
      apply (RegExp.MSeq a b "" (String c s)); [by apply RegExp_nullable_spec|eauto].
  - apply elem_of_app in Hin as [Hin|Hin]; [apply RegExp.MAltL|apply RegExp.MAltR]; eauto.
  - apply list_elem_of_fmap in Hin as (a' & -> & Hin).
    inversion Hm; subst. apply (RegExp.MStarS a (String c _) _); eauto.
Qed.

Lemma RegExp_after_complete c r s :
  RegExp.Matches r (String c s) → ∃ r', r' ∈ RegExp.after c r ∧ RegExp.Matches r' s.
Proof.
  remember (String c s) as str eqn:Hs. intros H. revert s Hs.
  induction H as [|k c' Hk|a b s1 s2 H1 IH1 H2 IH2|a b s0 H IH|a b s0 H IH| |a s1 s2 H1 IH1 H2 IH2];
    intros s Hs; cbn.
  - discriminate.
  - injection Hs as -> <-. rewrite Hk. exists RegExp.Empty. split; [by apply list_elem_of_singleton|constructor].
  - apply string_app_cons_inv in Hs as [[-> ->]|(s1' & -> & ->)].
    + destruct (IH2 s eq_refl) as (r' & Hin & Hm). exists r'. split; [|done].
      apply elem_of_app. right. by rewrite (proj2 (RegExp_nullable_spec a) H1).
    + destruct (IH1 s1' eq_refl) as (a' & Hin & Hm). exists (RegExp.Seq a' b).
      split; [|by constructor]. apply elem_of_app. left.
      apply list_elem_of_fmap. eauto.
  - destruct (IH s Hs) as (r' & Hin & Hm). exists r'. split; [|done]. apply elem_of_app; auto.
  - destruct (IH s Hs) as (r' & Hin & Hm). exists r'. split; [|done]. apply elem_of_app; auto.
  - discriminate.
  - apply string_app_cons_inv in Hs as [[-> ->]|(s1' & -> & ->)].
    + exact (IH2 s eq_refl).
    + destruct (IH1 s1' eq_refl) as (a' & Hin & Hm). exists (RegExp.Seq a' (RegExp.Star a)).
      split; [|by constructor]. apply list_elem_of_fmap. eauto.
Qed.

Lemma RegExp_run_spec rs s : RegExp.run rs s = true ↔ ∃ r, r ∈ rs ∧ RegExp.Matches r s.
Proof.
  revert rs. induction s as [|c s IH]; intros rs; cbn.
  - rewrite existsb_exists. split.
    + intros (r & Hin & Hn). exists r. split; [by apply list_elem_of_In|by apply RegExp_nullable_spec].
    + intros (r & Hin & Hm). exists r. split; [by apply list_elem_of_In|by apply RegExp_nullable_spec].
  - rewrite IH. split.
    + intros (r' & Hin & Hm). apply elem_of_remove_dups, list_elem_of_bind in Hin as (r & Hin' & Hr).
      exists r. split; [done|]. by apply (RegExp_after_sound c r r').
    + intros (r & Hin & Hm). destruct (RegExp_after_complete c r s Hm) as (r' & Hin' & Hm').
      exists r'. split; [|done]. apply elem_of_remove_dups, list_elem_of_bind. eauto.
Qed.

Lemma RegExp_test_spec r s : RegExp.test r s = true ↔ RegExp.Matches r s.
Proof.
  unfold RegExp.test. rewrite RegExp_run_spec. split.
  - by intros (r' & ->%list_elem_of_singleton & Hm).
  - intros Hm. exists r. split; [by apply list_elem_of_singleton|done].
Qed.


Lemma head_filter_None (p : User → bool) (m : gmap string User) :
  (∀ k u, m !! k = Some u → p u = false) →
  head (filter (λ u, p u = true) (map_to_list m).*2) = None.
Proof.
  intros Hnone.
  destruct (filter _ _) as [|u l] eqn:Hf; [done|].
  assert (u ∈ filter (λ u, p u = true) (map_to_list m).*2) as Hin
    by (rewrite Hf; apply elem_of_cons; auto).
  apply list_elem_of_filter in Hin as [Hp Hin].
  apply list_elem_of_fmap in Hin as ([k u'] & -> & Hin).
  apply elem_of_map_to_list in Hin. cbn in Hp. rewrite (Hnone k u' Hin) in Hp.
  discriminate.
Qed.

Lemma head_filter_unique (p : User → bool) (m : gmap string User) k u :
  m !! k = Some u → p u = true →
  (∀ k' u', m !! k' = Some u' → p u' = true → u' = u) →
  head (filter (λ u, p u = true) (map_to_list m).*2) = Some u.
Proof.
  intros Hk Hp Huniq.
  assert (u ∈ filter (λ u, p u = true) (map_to_list m).*2) as Hu.
  { apply list_elem_of_filter. split; [done|].
    apply list_elem_of_fmap. exists (k, u). split; [done|].
    by apply elem_of_map_to_list. }
  destruct (filter _ _) as [|u0 l] eqn:Hf; [by apply elem_of_nil in Hu|].
  assert (u0 ∈ filter (λ u, p u = true) (map_to_list m).*2) as Hin
    by (rewrite Hf; apply elem_of_cons; auto).
  apply list_elem_of_filter in Hin as [Hp0 Hin].
  apply list_elem_of_fmap in Hin as ([k0 u0'] & -> & Hin).
  apply elem_of_map_to_list in Hin. cbn. f_equal. by apply (Huniq k0).
Qed.

Lemma existsb_values_false (p : User → bool) (m : gmap string User) :
  (∀ k u, m !! k = Some u → p u = false) →
  existsb p (map_to_list m).*2 = false.
Proof.
  intros Hnone. apply not_true_is_false. intros H.
  apply existsb_exists in H as (u & Hin & Hp).
  apply list_elem_of_In in Hin.
  apply list_elem_of_fmap in Hin as ([k u'] & -> & Hin).
  apply elem_of_map_to_list in Hin. cbn in Hp. rewrite (Hnone k u' Hin) in Hp.
  discriminate.
Qed.

(** [User.create] leaves everything but the store and the log alone. *)
Lemma create_frame doc w :
  let w' := (UserModel.create doc w).2 in
  cache w' = cache w ∧ oauthClientPool w' = oauthClientPool w ∧
  heap w' = heap w ∧ now w' = now w.
Proof.
  cbn zeta. unfold UserModel.create.
  destruct (UserModel.validate _); [destruct (UserModel.duplicate _ _)|]; cbn; auto.
Qed.

(** The consent handler writes to the store only. *)
Lemma verify_frame accessToken refreshToken profile newId w :
  let w' := (Passport.verify accessToken refreshToken profile newId w).2 in
  cache w' = cache w ∧ oauthClientPool w' = oauthClientPool w ∧
  heap w' = heap w ∧ now w' = now w.
Proof.
  cbn zeta. unfold Passport.verify, firstEmail, UserModel.findOne, UserModel.save.
  unfold_monad.
  destruct (head (emails profile)); cbn; [|auto].
  destruct (head (filter _ _)); cbn; [auto|].
  destruct (head (filter _ _)); cbn; [auto|].
  match goal with
  | |- context [UserModel.create ?d ?w0] =>
      pose proof (create_frame d w0) as Hf;
      destruct (UserModel.create d w0) as [[?|?] w1]
  end; cbn in *; exact Hf.
Qed.

(** When the schema lets a document pass. *)
Lemma validate_accepts doc :
  name doc ≠ "" → (String.length (name doc) ≤ 50)%nat →
  RegExp.test UserModel.emailPattern (email doc) = true →
  UserModel.validate doc = [].
Proof.
  intros Hname Hlen Hmail. unfold UserModel.validate, UserModel.validate_name,
    UserModel.validate_email.
  destruct (String.eqb_spec (name doc) ""); [contradiction|].
  destruct (Nat.ltb_spec 50 (String.length (name doc))); [lia|].
  rewrite Hmail. destruct (String.eqb_spec (email doc) "") as [E|]; [|done].
  rewrite E in Hmail. discriminate.
Qed.

Lemma validate_refuses doc :
  name doc = "" ∨ (50 < String.length (name doc))%nat
  ∨ RegExp.test UserModel.emailPattern (email doc) = false →
  UserModel.validate doc ≠ [].
Proof.
  unfold UserModel.validate, UserModel.validate_name, UserModel.validate_email.
  intros [Hname|[Hlen|Hmail]].
  - rewrite Hname. discriminate.
  - destruct (String.eqb_spec (name doc) ""); [discriminate|].
    destruct (Nat.ltb_spec 50 (String.length (name doc))); [discriminate|lia].
  - rewrite Hmail. intros [_ H]%app_eq_nil.
    destruct (String.eqb (email doc) ""); discriminate.
Qed.

(** X17. A first consent, for a profile whose Google id and whose e-mail
    address (compared in lower case, as the schema has it) no stored user
    has, the id the driver assigns being unused.  When the schema accepts
    the document (a name that after trimming is not empty and at most 50
    long, an address that in lower case matches the pattern), the handler
    creates the user under the new id with the trimmed name, the address in
    lower case, the delivered access token, the delivered refresh token as it
    came (possibly none), the legacy [expiryDate] one hour ahead and no
    [accessTokenExpiry], and no other record changes.  When the schema
    refuses it, the handler fails with the validation error and the store is
    as it was: no user is created. *)
Theorem verify_creates_user accessToken refreshToken profile newId mail w :
  head (emails profile) = Some mail →
  (∀ k u, store w !! k = Some u →
          googleId u ≠ Some (profile_id profile) ∧ email u ≠ Js.toLowerCase mail) →
  store w !! newId = None →
  let r := Passport.verify accessToken refreshToken profile newId w in
  let name' := Js.trim (displayName profile) in
  let mail' := Js.toLowerCase mail in
  let created :=
    mkUser newId name' mail' (Some (profile_id profile))
           (head (photos profile))
           (Some (mkGoogleTokens (Some accessToken) refreshToken None
                                 (Some (now w + 3600000)%Z) googleScopes))
           (Some (now w)) in
  (name' ≠ "" → (String.length name' ≤ 50)%nat →
   RegExp.test UserModel.emailPattern mail' = true →
     r.1 = Ok created ∧
     store r.2 = <[newId := created]> (store w) ∧
     (∀ k, k ≠ newId → store r.2 !! k = store w !! k)) ∧
  (name' = "" ∨ (50 < String.length name')%nat
   ∨ RegExp.test UserModel.emailPattern mail' = false →
     (∃ errors, errors ≠ [] ∧ r.1 = Throw (ValidationError errors)) ∧
     store r.2 = store w).
Proof.
  intros Hmail Hnew Hfresh r name' mail' created. subst r.
  unfold Passport.verify, firstEmail, UserModel.findOne.
  unfold_monad. rewrite Hmail. cbn [fst snd store emit].
  rewrite head_filter_None.
  2:{ intros k u Hk. destruct (Hnew k u Hk) as [Hg _].
      apply bool_decide_eq_false. exact Hg. }
  cbn [fst snd store emit]. rewrite head_filter_None.
  2:{ intros k u Hk. destruct (Hnew k u Hk) as [_ He].
      by apply String.eqb_neq. }
  cbn [now emit]. unfold UserModel.create.
  change (UserModel.cast _) with created. cbn [store emit].
  split.
  - intros Hname Hlen Hmatch.
    rewrite (validate_accepts created Hname Hlen Hmatch).
    assert (UserModel.duplicate created (store w) = false) as ->.
    { unfold UserModel.duplicate. cbn [_id created]. rewrite Hfresh.
      rewrite bool_decide_eq_false_2 by (by intros [? ?]). cbn [orb].
      apply existsb_values_false. intros k u Hk. destruct (Hnew k u Hk) as [Hg He].
      unfold UserModel.clashes. cbn [email googleId created].
      apply orb_false_intro; [by apply String.eqb_neq|].
      destruct (googleId u) as [g|]; [|done].
      apply String.eqb_neq. congruence. }
    cbn. split; [done|]. split; [done|].
    intros k Hk. by rewrite lookup_insert_ne.
  - intros Hbad. pose proof (validate_refuses created Hbad) as Hv.
    destruct (UserModel.validate created) as [|e errors] eqn:E; [done|].
    cbn. split; [|done]. exists (e :: errors). done.
Qed.

(** X18. A consent for a profile whose Google id is new but whose e-mail
    address, compared in lower case as the schema has it, belongs to exactly
    one stored user: the handler links the account.  That user's record keeps
    its id, name and address, gets the profile's Google id and picture and
    the delivered tokens; no record is created and no other record
    changes. *)
Theorem verify_links_by_email accessToken refreshToken profile newId mail k u w :
  head (emails profile) = Some mail →
  (∀ k' u', store w !! k' = Some u' → googleId u' ≠ Some (profile_id profile)) →
  store w !! k = Some u → _id u = k → email u = Js.toLowerCase mail →
  (∀ k' u', store w !! k' = Some u' → email u' = Js.toLowerCase mail → u' = u) →
  let r := Passport.verify accessToken refreshToken profile newId w in
  let linked :=
    mkUser k (name u) (email u) (Some (profile_id profile)) (head (photos profile))
           (Some (mkGoogleTokens (Some accessToken) refreshToken None
                                 (Some (now w + 3600000)%Z) googleScopes))
           (Some (now w)) in
  r.1 = Ok linked ∧
  store r.2 = <[k := linked]> (store w) ∧
  dom (store r.2) = dom (store w).
Proof.
  intros Hmail Hnog Hk Hid Hem Huniq r linked. subst r linked.
  unfold Passport.verify, firstEmail, UserModel.findOne, UserModel.save.
  unfold_monad. rewrite Hmail. cbn [fst snd store emit].
  rewrite head_filter_None.
  2:{ intros k' u' Hk'. apply bool_decide_eq_false. by apply (Hnog k'). }
  cbn [fst snd store emit].
  rewrite (head_filter_unique _ _ k u Hk).
  2:{ by apply String.eqb_eq. }
  2:{ intros k' u' Hk' He. apply String.eqb_eq in He. by apply (Huniq k'). }
  cbn. rewrite Hid. split; [done|]. split; [done|].
  apply dom_insert_lookup_L. eauto.
Qed.

Section StaleCache.
Variable P : Provider.

(** X19. A consent does not reach the token cache.  When a live cache entry
    with 5 minutes or more to go exists for a user, then after any run of the
    consent handler [setupClient] still answers from that entry: it reads no
    store and the client it returns holds the cached tokens, not the ones
    just delivered. *)
Theorem consent_leaves_cached_tokens_in_use
    accessToken refreshToken profile newId uid req w item :
  cache w !! ("tokens_" +:+ uid) = Some item →
  (now w < expires item)%Z →
  Js.lt (GoogleApiService.timeUntilExpiry (value item) (now w)) (Fin 300000) = false →
  let w1 := (Passport.verify accessToken refreshToken profile newId w).2 in
  let r := GoogleApiService.setupClient P uid req w1 in
  ∃ c, r.1 = Ok (Some c) ∧ log r.2 = log w1 ∧
       heap r.2 !! c = Some (mkClient (value item)).
Proof.
  intros Hc Hlive Hfar w1 r. subst r.
  destruct (verify_frame accessToken refreshToken profile newId w)
    as (Hc1 & _ & _ & Hn1). fold w1 in Hc1, Hn1.
  destruct (setupClient_cache_hit_run P uid req w1 item)
    as (c & Hr & Hl & _ & _ & _ & _ & Hh);
    [by rewrite Hc1|by rewrite Hn1|by rewrite Hn1|].
  eauto.
Qed.

End StaleCache.

(** ** Insertion-ordered maps *)

Lemma JsMap_get_set_eq {V} k (v : V) m : JsMap.get k (JsMap.set k v m) = Some v.
Proof.
  induction m as [|[k' v'] m IH]; cbn; [by rewrite String.eqb_refl|].
  destruct (String.eqb k k') eqn:E; cbn; rewrite E; [done|exact IH].
Qed.

Lemma JsMap_set_length_le {V} k (v : V) m :
  (length (JsMap.set k v m) ≤ S (length m))%nat.
Proof.
  induction m as [|[k' v'] m IH]; cbn; [lia|].
  destruct (String.eqb k k'); cbn; lia.
Qed.

Lemma JsMap_set_keys {V} k (v : V) m x :
  x ∈ (JsMap.set k v m).*1 ↔ x = k ∨ x ∈ m.*1.
Proof.
  induction m as [|[k' v'] m IH]; cbn.
  - rewrite list_elem_of_singleton, elem_of_nil. tauto.
  - destruct (String.eqb_spec k k') as [->|Hne]; cbn.
    + rewrite !elem_of_cons. tauto.
    + rewrite !elem_of_cons, IH. tauto.
Qed.

Lemma JsMap_set_NoDup {V} k (v : V) m :
  NoDup m.*1 → NoDup (JsMap.set k v m).*1.
Proof.
  induction m as [|[k' v'] m IH]; cbn; [intros; apply NoDup_singleton|].
  intros [Hk' Hm]%NoDup_cons.
  destruct (String.eqb_spec k k') as [->|Hne]; cbn.
  - by apply NoDup_cons.
  - apply NoDup_cons. split; [|by apply IH].
    rewrite JsMap_set_keys. intros [->|?]; [done|contradiction].
Qed.

Lemma JsMap_delete_keys {V} k (m : list (string * V)) x :
  x ∈ (JsMap.delete k m).*1 → x ∈ m.*1.
Proof.
  induction m as [|[k' v'] m IH]; cbn; [done|].
  destruct (String.eqb k k'); cbn; rewrite !elem_of_cons; [auto|].
  intros [->|?]; auto.
Qed.

Lemma JsMap_delete_NoDup {V} k (m : list (string * V)) :
  NoDup m.*1 → NoDup (JsMap.delete k m).*1.
Proof.
  induction m as [|[k' v'] m IH]; cbn; [done|].
  intros [Hk' Hm]%NoDup_cons. destruct (String.eqb k k'); cbn; [done|].
  apply NoDup_cons. split; [|by apply IH].
  intros Hin. by apply JsMap_delete_keys in Hin.
Qed.

Lemma JsMap_delete_length_le {V} k (m : list (string * V)) :
  (length (JsMap.delete k m) ≤ length m)%nat.
Proof.
  induction m as [|[k' v'] m IH]; cbn; [lia|].
  destruct (String.eqb k k'); cbn; lia.
Qed.

Lemma JsMap_get_delete_eq {V} k (m : list (string * V)) :
  NoDup m.*1 → JsMap.get k (JsMap.delete k m) = None.
Proof.
  induction m as [|[k' v'] m IH]; cbn; [done|].
  intros [Hk' Hm]%NoDup_cons.
  destruct (String.eqb_spec k k') as [->|Hne]; cbn.
  - by apply JsMap_get_None.
  - destruct (String.eqb_spec k k'); [contradiction|]. by apply IH.
Qed.

(** ** The fallback cache *)

Section FallbackCache.
Context {V : Type}.
Implicit Types cache : list (string * (V * Z)).

Lemma fallback_set_shape key (v : V) ttl t cache :
  (length cache ≤ 1000)%nat → NoDup cache.*1 →
  (length (SimpleCacheFallback.set key v ttl t cache) ≤ 1000)%nat ∧
  NoDup (SimpleCacheFallback.set key v ttl t cache).*1.
Proof.
  intros Hlen Hnd. unfold SimpleCacheFallback.set, SimpleCacheFallback.maxSize, JsMap.size.
  destruct (Nat.leb_spec 1000 (length cache)).
  - rewrite JsMap_evict_first_tail. split.
    + etransitivity; [apply JsMap_set_length_le|]. rewrite length_tail_le. lia.
    + apply JsMap_set_NoDup. rewrite fmap_tail. by apply NoDup_tail.
  - split; [|by apply JsMap_set_NoDup].
    etransitivity; [apply JsMap_set_length_le|]. lia.
Qed.

(** X20. Whatever is done with the fallback cache, in whatever order: it never
    holds more than 1000 entries and never two entries for one key. *)
Theorem fallback_cache_bounded (ops : list (SimpleCacheFallback.Op V)) cache :
  (length cache ≤ 1000)%nat → NoDup cache.*1 →
  (length (foldl SimpleCacheFallback.apply cache ops) ≤ 1000)%nat ∧
  NoDup (foldl SimpleCacheFallback.apply cache ops).*1.
Proof.
  revert cache. induction ops as [|op ops IH]; intros cache Hlen Hnd; [done|].
  cbn [foldl]. destruct op as [key v ttl t|key t|key|]; cbn [SimpleCacheFallback.apply].
  - destruct (fallback_set_shape key v ttl t cache Hlen Hnd). by apply IH.
  - unfold SimpleCacheFallback.get. destruct (JsMap.get key cache) as [item|];
      [destruct (item.2 <? t)%Z|]; cbn [snd]; apply IH; auto.
    + etransitivity; [apply JsMap_delete_length_le|done].
    + by apply JsMap_delete_NoDup.
  - apply IH; [|by apply JsMap_delete_NoDup].
    etransitivity; [apply JsMap_delete_length_le|done].
  - apply IH; cbn; [lia|constructor].
Qed.

(** X21. A value set with a time to live and read back at time [t']: up to and
    including the instant of the [set] plus the time to live the read gives
    the value and leaves the cache alone; after that instant it gives [null]
    and the entry is gone. *)
Theorem fallback_cache_set_get key (v : V) ttl t t' cache :
  NoDup cache.*1 →
  let cache1 := SimpleCacheFallback.set key v ttl t cache in
  ((t' ≤ t + ttl * 1000)%Z →
     SimpleCacheFallback.get key t' cache1 = (Some v, cache1)) ∧
  ((t + ttl * 1000 < t')%Z →
     (SimpleCacheFallback.get key t' cache1).1 = None ∧
     JsMap.get key (SimpleCacheFallback.get key t' cache1).2 = None).
Proof.
  intros Hnd cache1.
  assert (JsMap.get key cache1 = Some (v, (t + ttl * 1000)%Z)) as Hget
    by apply JsMap_get_set_eq.
  assert (NoDup cache1.*1) as Hnd1.
  { subst cache1. unfold SimpleCacheFallback.set.
    apply JsMap_set_NoDup. destruct (_ <=? _)%nat; [|done].
    rewrite JsMap_evict_first_tail, fmap_tail. by apply NoDup_tail. }
  unfold SimpleCacheFallback.get. rewrite Hget. cbn [fst snd].
  split; intros H.
  - destruct (Z.ltb_spec (t + ttl * 1000) t'); [lia|done].
  - destruct (Z.ltb_spec (t + ttl * 1000) t'); [|lia]. cbn.
    split; [done|by apply JsMap_get_delete_eq].
Qed.

End FallbackCache.

(** ** The fallback rate limiter *)

Section RateLimit.
Import RateLimitFallback.

Lemma inwin_inwin ws ws' l : (ws ≤ ws')%Z → inwin ws' (inwin ws l) = inwin ws' l.
Proof.
  intros H. unfold inwin. induction l as [|x l IH]; cbn; [done|].
  destruct (Z.ltb_spec ws x); cbn.
  - destruct (Z.ltb_spec ws' x); by rewrite IH.
  - destruct (Z.ltb_spec ws' x); [lia|exact IH].
Qed.

Lemma inwin_length_mono ws ws' l :
  (ws ≤ ws')%Z → (length (inwin ws' l) ≤ length (inwin ws l))%nat.
Proof.
  intros H. unfold inwin. induction l as [|x l IH]; cbn; [lia|].
  destruct (Z.ltb_spec ws x), (Z.ltb_spec ws' x); cbn; lia.
Qed.

Lemma inwin_app ws l l' : inwin ws (l ++ l') = inwin ws l ++ inwin ws l'.
Proof. apply List.filter_app. Qed.

Lemma times_app k acc acc' : times k (acc ++ acc') = times k acc ++ times k acc'.
Proof. unfold times. by rewrite List.filter_app, fmap_app. Qed.

Lemma clean_keys ws st x :
  x ∈ (clean ws st).*1 → x ∈ st.*1.
Proof.
  unfold clean.
  induction st as [|[k ts] st IH]; cbn; [done|].
  destruct (length _ =? 0)%nat; cbn; rewrite !elem_of_cons; [auto|].
  intros [->|?]; auto.
Qed.

Lemma clean_NoDup ws st : NoDup st.*1 → NoDup (clean ws st).*1.
Proof.
  unfold clean.
  induction st as [|[k ts] st IH]; cbn; [done|].
  intros [Hk Hst]%NoDup_cons. destruct (length _ =? 0)%nat; cbn; [by apply IH|].
  apply NoDup_cons. split; [|by apply IH].
  intros Hin. by apply clean_keys in Hin.
Qed.

Lemma get_clean ws st k :
  NoDup st.*1 →
  default [] (JsMap.get k (clean ws st))
    = inwin ws (default [] (JsMap.get k st)).
Proof.
  induction st as [|[k' ts] st IH]; [done|].
  intros [Hk' Hst]%NoDup_cons.
  change (clean ws ((k', ts) :: st))
    with (match (if (length (inwin ws ts) =? 0)%nat
                 then None else Some (k', inwin ws ts)) with
          | Some e => e :: clean ws st
          | None => clean ws st
          end).
  cbn [JsMap.get]. destruct (String.eqb_spec k k') as [->|Hne].
  - destruct (Nat.eqb_spec (length (inwin ws ts)) 0) as [H0|Hn0].
    + assert (JsMap.get k' (clean ws st) = None) as ->.
      { apply JsMap_get_None. intros Hin. by apply clean_keys in Hin. }
      change ([] = inwin ws ts). destruct (inwin ws ts); [done|discriminate].
    + cbn. by rewrite String.eqb_refl.
  - destruct (length (inwin ws ts) =? 0)%nat; cbn [JsMap.get].
    + by apply IH.
    + destruct (String.eqb_spec k k'); [contradiction|]. by apply IH.
Qed.

Variables maxRequests windowMs : Z.
Hypothesis window_positive : (0 < windowMs)%Z.

(** One request keeps the handler's state a record of what it let through. *)
Lemma handle_tracks st acc t0 key t :
  tracks windowMs maxRequests st acc t0 → (t0 ≤ t)%Z →
  let r := handle maxRequests windowMs st key t in
  tracks windowMs maxRequests r.2 (if r.1 then acc ++ [(key, t)] else acc) t.
Proof.
  intros (Hnd & Hrec & Hbound) Hle. cbn zeta.
  assert (∀ k, default [] (JsMap.get k (clean (t - windowMs) st))
               = inwin (t - windowMs) (times k acc)) as Hclean.
  { intros k. rewrite get_clean by done. rewrite Hrec. apply inwin_inwin. lia. }
  assert (∀ k, (Z.of_nat (length (inwin (t - windowMs) (times k acc)))
                ≤ Z.max 0 maxRequests)%Z) as Hbound'.
  { intros k. specialize (Hbound k).
    pose proof (inwin_length_mono (t0 - windowMs) (t - windowMs) (times k acc)). lia. }
  unfold handle.
  fold (inwin (t - windowMs)
          (default [] (JsMap.get key (clean (t - windowMs) st)))).
  rewrite Hclean, inwin_inwin by lia.
  destruct (Z.leb_spec maxRequests
              (Z.of_nat (length (inwin (t - windowMs) (times key acc))))) as [Hfull|Hroom];
    cbn [fst snd].
  - split; [by apply clean_NoDup|]. split; [exact Hclean|exact Hbound'].
  - split; [apply JsMap_set_NoDup; by apply clean_NoDup|].
    assert (∀ k, inwin (t - windowMs) (times k (acc ++ [(key, t)]))
                 = inwin (t - windowMs) (times k acc)
                   ++ (if String.eqb key k then [t] else [])) as Hnew.
    { intros k. rewrite times_app, inwin_app. f_equal. unfold times. cbn.
      destruct (String.eqb key k); cbn; [|done].
      destruct (Z.ltb_spec (t - windowMs) t); [done|lia]. }
    split.
    + intros k. rewrite Hnew. destruct (String.eqb_spec key k) as [->|Hne].
      * by rewrite JsMap_get_set_eq.
      * rewrite JsMap_get_set_ne by (by apply String.eqb_neq).
        rewrite Hclean. by rewrite app_nil_r.
    + intros k. rewrite Hnew. destruct (String.eqb_spec key k) as [->|Hne].
      * rewrite length_app. cbn. lia.
      * rewrite app_nil_r. apply Hbound'.
Qed.

Lemma serve_bound incoming : ∀ st acc t0,
  tracks windowMs maxRequests st acc t0 →
  ascending t0 incoming = true →
  ∀ t k, (t0 ≤ t)%Z → (∀ p, p ∈ incoming → (p.2 ≤ t)%Z) →
    (Z.of_nat (length (inwin (t - windowMs)
       (times k (acc ++ (serve maxRequests windowMs st incoming).1))))
     ≤ Z.max 0 maxRequests)%Z.
Proof.
  induction incoming as [|[key t'] incoming IH]; intros st acc t0 Htr Hasc t k Ht Hall.
  - cbn. rewrite app_nil_r. destruct Htr as (_ & _ & Hbound). specialize (Hbound k).
    pose proof (inwin_length_mono (t0 - windowMs) (t - windowMs) (times k acc)). lia.
  - cbn in Hasc. apply andb_true_iff in Hasc as [Hle Hasc]. apply Z.leb_le in Hle.
    pose proof (handle_tracks st acc t0 key t' Htr Hle) as Hstep. cbn zeta in Hstep.
    cbn [serve].
    destruct (handle maxRequests windowMs st key t') as [ok st'].
    cbn [fst snd] in Hstep.
    assert (t' ≤ t)%Z as Ht' by (apply (Hall (key, t')), elem_of_cons; auto).
    assert (∀ p, p ∈ incoming → (p.2 ≤ t)%Z) as Hall'
      by (intros p Hp; apply Hall, elem_of_cons; auto).
    specialize (IH st' _ t' Hstep Hasc t k Ht' Hall').
    destruct (serve maxRequests windowMs st' incoming) as [rest final].
    cbn [fst] in *. destruct ok; [|exact IH].
    by rewrite <- app_assoc in IH.
Qed.

(** X22. The limit holds over any series of requests that arrive in time
    order, for a limiter that starts empty: at any time [t] from the last
    request on, the requests of one client that were let through inside the
    window ending at [t] number at most [maxRequests] (none, when
    [maxRequests] is not positive). *)
Theorem rate_limit_holds incoming key t :
  in_order incoming = true →
  (∀ p, p ∈ incoming → (p.2 ≤ t)%Z) →
  (Z.of_nat (passed_in_window windowMs key t
               (serve maxRequests windowMs [] incoming).1)
   ≤ Z.max 0 maxRequests)%Z.
Proof.
  intros Hord Hall.
  assert (∀ passed, passed_in_window windowMs key t passed
                    = length (inwin (t - windowMs) (times key passed))) as Hcount.
  { intros passed. unfold passed_in_window, inwin, times.
    induction passed as [|[k' t'] passed IH]; cbn; [done|].
    destruct (String.eqb k' key); cbn; [|exact IH].
    destruct (t - windowMs <? t')%Z; cbn; by rewrite IH. }
  rewrite Hcount.
  destruct incoming as [|[k1 t1] incoming]; [cbn; lia|].
  apply (serve_bound ((k1, t1) :: incoming) [] [] t1); [|exact Hord| |exact Hall].
  - split; [constructor|]. split; [done|]. intros k. cbn. lia.
  - apply (Hall (k1, t1)), elem_of_cons. auto.
Qed.

End RateLimit.

(** ** Instances *)

(** An entry set for 50 minutes at 1,000,000 and read one minute later. *)
Lemma tokenCache_set_get_ttl_witness :
  let w1 := set_now 1060000
              (tokenCache.set "tokens_u1" (mkTokens (Some "at-1") None None None)
                              3000 Sample.morning).2 in
  tokenCache.get "tokens_u1" w1 = (Ok (Some (mkTokens (Some "at-1") None None None)), w1).
Proof.
  apply (proj1 (tokenCache_set_get_ttl "tokens_u1" (mkTokens (Some "at-1") None None None)
                  3000 1060000 Sample.morning)).
  vm_compute. reflexivity.
Defined.

(** A further user at the pool of 101: the oldest entry leaves. *)
Lemma getOAuthClient_evicts_oldest_witness :
  JsMap.size (oauthClientPool Scenario.packed) = 101%nat ∧
  ∃ c, oauthClientPool (GoogleApiService.getOAuthClient "late" None Scenario.packed).2
       = tail (oauthClientPool Scenario.packed) ++ [("oauth_late", c)].
Proof.
  split; [vm_compute; reflexivity|].
  destruct (getOAuthClient_evicts_oldest "late" None Scenario.packed)
    as (c & _ & _ & Hpool); [vm_compute; reflexivity|].
  exists c. exact Hpool.
Defined.

(** Three acquisitions on a fresh process. *)
Lemma acquireAll_pool_ok_witness :
  pool_ok (acquireAll [("u1", None); ("u2", None); ("u1", None)] Sample.morning).
Proof.
  apply acquireAll_pool_ok. apply pool_ok_empty. reflexivity.
Defined.

(** Alice's call in the evening, with a refresh. *)
Lemma setupClient_pool_ok_witness :
  pool_ok (GoogleApiService.setupClient Sample.provider "u1" None Sample.evening).2.
Proof.
  apply setupClient_pool_ok. apply pool_ok_empty. reflexivity.
Defined.

(** A user the store does not know. *)
Lemma setupClient_not_authenticated_witness :
  (GoogleApiService.setupClient Sample.provider "u9" None Sample.morning).1
  = Throw (Error "User not found or no Google tokens available").
Proof.
  apply (setupClient_not_authenticated Sample.provider "u9" None Sample.morning).
  - vm_compute. reflexivity.
  - vm_compute. reflexivity.
Defined.

(** Alice's second call of the morning. *)
Lemma setupClient_cache_hit_witness :
  ∃ c, (GoogleApiService.setupClient Sample.provider "u1" None Sample.afterCall).1
       = Ok (Some c) ∧
       log (GoogleApiService.setupClient Sample.provider "u1" None Sample.afterCall).2
       = log Sample.afterCall.
Proof.
  destruct (setupClient_cache_hit Sample.provider "u1" None Sample.afterCall
              (mkCacheItem (mkTokens (Some "at-1") (Some "rt-1") (Some 4000000%Z) None)
                           4000000))
    as (c & Hr & Hl & _).
  - vm_compute. reflexivity.
  - vm_compute. reflexivity.
  - vm_compute. reflexivity.
  - exists c. split; [exact Hr|exact Hl].
Defined.

(** Alice's first call of the morning. *)
Lemma setupClient_cache_miss_witness :
  cache (GoogleApiService.setupClient Sample.provider "u1" None Sample.morning).2
    !! "tokens_u1"
  = Some (mkCacheItem (mkTokens (Some "at-1") (Some "rt-1") (Some 4000000%Z) None)
                      4000000).
Proof.
  destruct (setupClient_cache_miss Sample.provider "u1" None Sample.morning
              (Sample.tokensOf "at-1" (Some "rt-1") 4000000))
    as (c & _ & _ & _ & Hc & _).
  - vm_compute. reflexivity.
  - vm_compute. reflexivity.
  - reflexivity.
  - vm_compute. reflexivity.
  - exact Hc.
Defined.

Lemma sample_provider_grants rt resp :
  token_endpoint Sample.provider rt = inr resp →
  (300 ≤ Js.or_num (expires_in resp) 3600)%Z.
Proof.
  cbn. destruct (String.eqb rt "rt-1"); [|discriminate].
  intros [= <-]. cbn. lia.
Qed.

(** Alice in the evening, twice: the first call refreshes, the second one
    does not. *)
Lemma setupClient_twice_one_exchange_witness :
  ∃ c w', GoogleApiService.setupClient Sample.provider "u1" None Sample.evening
          = (Ok c, w') ∧
          log (GoogleApiService.setupClient Sample.provider "u1" None w').2 = log w'.
Proof.
  assert (∃ c w', GoogleApiService.setupClient Sample.provider "u1" None Sample.evening
                  = (Ok c, w')) as (c & w' & E)
    by (vm_compute; eexists _, _; reflexivity).
  exists c, w'. split; [exact E|].
  exact (proj1 (proj2 (setupClient_twice_one_exchange Sample.provider "u1" None
                         Sample.evening c w' E sample_provider_grants))).
Defined.

(** Alice's refresh in the evening: two writes to the store, and her
    refresh token is the one that was on file. *)
Lemma refreshToken_success_state_witness :
  stored_refresh_token
    (GoogleApiService.refreshToken Sample.provider "u1" None Sample.evening).2 "u1"
  = Some "rt-1" ∧
  ((store (GoogleApiService.refreshToken Sample.provider "u1" None Sample.evening).2
      !! "u1") ≫= googleTokens) ≫= accessToken = Some "at-2" ∧
  updates (log (GoogleApiService.refreshToken Sample.provider "u1" None
                  Sample.evening).2) = 2%nat.
Proof.
  destruct (refreshToken_success_state Sample.provider "u1" None Sample.evening "rt-1"
              (mkTokens (Some "at-2") None (Some 8600000%Z) None))
    as (c & item & _ & _ & Hrt & Hat & Hup & _).
  - vm_compute. reflexivity.
  - discriminate.
  - reflexivity.
  - split; [exact Hrt|]. split; [exact Hat|exact Hup].
Defined.

(** Writing Alice's tokens leaves Bob's record alone. *)
Lemma updateUserTokens_touches_only_tokens_witness :
  store (GoogleApiService.updateUserTokens "u1"
           (mkTokens (Some "at-2") None None None) None Sample.evening).2 !! "u2"
  = store Sample.evening !! "u2".
Proof.
  apply (proj1 (updateUserTokens_touches_only_tokens "u1"
                  (mkTokens (Some "at-2") None None None) None Sample.evening)).
  discriminate.
Defined.

(** An event for Alice that carries no refresh token. *)
Lemma onTokens_keeps_refresh_token_witness :
  stored_refresh_token
    (GoogleApiService.onTokens "u1" (mkTokens (Some "at-3") None (Some 9000000%Z) None)
                               Sample.evening).2 "u1"
  = stored_refresh_token Sample.evening "u1".
Proof.
  apply (onTokens_keeps_refresh_token "u1"
           (mkTokens (Some "at-3") None (Some 9000000%Z) None) Sample.evening).
  reflexivity.
Defined.

(** The request of Alice's session gets her stored record. *)
Lemma syncTokensWithSession_only_own_session_witness :
  reqs (GoogleApiService.syncTokensWithSession "u1" (Some 0%nat)
          Scenario.aliceSession).2
  = <[0%nat := mkReq (Some Sample.alice)]> (reqs Scenario.aliceSession).
Proof.
  apply (proj1 (proj2 (proj2 (proj2 (proj2
           (syncTokensWithSession_only_own_session "u1" (Some 0%nat)
              Scenario.aliceSession))))) 0%nat
           (mkUser "u1" "Alice" "alice@example.com" (Some "g-1") None None None)
           Sample.alice).
  - reflexivity.
  - vm_compute. reflexivity.
  - reflexivity.
  - discriminate.
  - vm_compute. reflexivity.
Defined.

(** Alice's mail in the morning. *)
Lemma getEmails_calls_witness :
  ∃ w1, log (GoogleApiService.getEmails Sample.provider "u1" "" (Fin 2) Sample.morning).2
        = log w1 ++ [EvMessagesList "" (Fin 2); EvMessagesGet "m1"; EvMessagesGet "m2"].
Proof.
  assert (∃ c w1, GoogleApiService.setupClient Sample.provider "u1" None Sample.morning
                  = (Ok c, w1)) as (c & w1 & E)
    by (vm_compute; eexists _, _; reflexivity).
  exists w1.
  exact (proj1 (proj2 (getEmails_calls Sample.provider "u1" "" (Fin 2)
                         Sample.morning c w1 E)) _ eq_refl).
Defined.

(** Bob in the evening: his token has expired and cannot be refreshed. *)
Lemma wrappers_stop_when_setupClient_fails_witness :
  (GoogleApiService.getTasks Sample.provider "u2" "@default" Sample.evening).1
  = Throw refreshFailed.
Proof.
  assert (∃ w1, GoogleApiService.setupClient Sample.provider "u2" None Sample.evening
                = (Throw refreshFailed, w1)) as (w1 & E)
    by (vm_compute; eexists; reflexivity).
  rewrite (proj1 (proj2 (wrappers_stop_when_setupClient_fails Sample.provider "u2"
                           Sample.evening refreshFailed w1 E)) "@default").
  reflexivity.
Defined.

(** A toggle request without a task id. *)
Lemma toggleTaskCompletion_refusals_witness :
  TaskController.toggleTaskCompletion Sample.provider "u1" None None Sample.morning
  = (Ok (Next "Task ID is required" 400), Sample.morning).
Proof.
  apply (proj1 (proj2 (toggleTaskCompletion_refusals Sample.provider "u1" None None
                         Sample.morning))).
  reflexivity.
Defined.

Lemma sample_users_elements k u :
  Sample.users !! k = Some u → u = Sample.alice ∨ u = Sample.bob ∨ u = Sample.carol.
Proof.
  unfold Sample.users. rewrite !lookup_insert_Some, lookup_empty.
  intros [[_ <-]|[_ [[_ <-]|[_ [[_ <-]|[_ ?]]]]]]; auto. discriminate.
Qed.

(** Dave's first consent, in a store that holds three other users: the name
    is stored trimmed, the address in lower case. *)
Lemma verify_creates_user_witness :
  ∃ created,
    (Passport.verify "at-4" (Some "rt-4") Scenario.daveProfile "u4" Sample.morning).1
      = Ok created ∧
    name created = "Dave D." ∧ email created = "dave@example.com" ∧
    store (Passport.verify "at-4" (Some "rt-4") Scenario.daveProfile "u4"
                           Sample.morning).2 = <["u4" := created]> Sample.users.
Proof.
  destruct (proj1 (verify_creates_user "at-4" (Some "rt-4") Scenario.daveProfile "u4"
                     "Dave@Example.com" Sample.morning eq_refl
                     ltac:(intros k u Hk; apply sample_users_elements in Hk
                             as [->|[->| ->]]; split; discriminate)
                     eq_refl))
    as (Hr & Hs & _).
  - vm_compute. discriminate.
  - vm_compute. lia.
  - vm_compute. reflexivity.
  - eexists. split; [exact Hr|]. split; [reflexivity|]. split; [reflexivity|exact Hs].
Defined.

(** Dave connects Google to the account he registered; the address arrives
    in mixed case. *)
Lemma verify_links_by_email_witness :
  ∃ linked,
    (Passport.verify "at-4" (Some "rt-4") Scenario.daveProfile "u5"
                     Scenario.registered).1 = Ok linked ∧
    _id linked = "u4" ∧ googleId linked = Some "g-4" ∧
    dom (store (Passport.verify "at-4" (Some "rt-4") Scenario.daveProfile "u5"
                                Scenario.registered).2)
    = dom (store Scenario.registered).
Proof.
  destruct (verify_links_by_email "at-4" (Some "rt-4") Scenario.daveProfile "u5"
              "Dave@Example.com" "u4" Scenario.dave Scenario.registered)
    as (Hr & _ & Hd).
  - reflexivity.
  - intros k' u' Hk'. cbn in Hk'. apply lookup_singleton_Some in Hk' as [_ <-].
    discriminate.
  - reflexivity.
  - reflexivity.
  - vm_compute. reflexivity.
  - intros k' u' Hk' _. cbn in Hk'. by apply lookup_singleton_Some in Hk' as [_ <-].
  - eexists. split; [exact Hr|]. split; [reflexivity|]. split; [reflexivity|exact Hd].
Defined.

(** Alice consents again while her tokens are cached. *)
Lemma consent_leaves_cached_tokens_in_use_witness :
  ∃ c, (GoogleApiService.setupClient Sample.provider "u1" None
          (Passport.verify "at-9" (Some "rt-9") Sample.aliceProfile "u9"
                           Sample.afterCall).2).1 = Ok (Some c).
Proof.
  destruct (consent_leaves_cached_tokens_in_use Sample.provider "at-9" (Some "rt-9")
              Sample.aliceProfile "u9" "u1" None Sample.afterCall
              (mkCacheItem (mkTokens (Some "at-1") (Some "rt-1") (Some 4000000%Z) None)
                           4000000))
    as (c & Hr & _).
  - vm_compute. reflexivity.
  - vm_compute. reflexivity.
  - vm_compute. reflexivity.
  - exists c. exact Hr.
Defined.

Lemma fallback_cache_bounded_witness :
  (length (foldl SimpleCacheFallback.apply [] Scenario.cacheOps) ≤ 1000)%nat.
Proof.
  apply (proj1 (fallback_cache_bounded Scenario.cacheOps [] ltac:(cbn; lia)
                  ltac:(constructor))).
Defined.

Lemma fallback_cache_set_get_witness :
  SimpleCacheFallback.get "a" 300000 (SimpleCacheFallback.set "a" "1" 300 0 [])
  = (Some "1", SimpleCacheFallback.set "a" "1" 300 0 []).
Proof.
  apply (proj1 (fallback_cache_set_get "a" "1" 300 0 300000 [] ltac:(constructor))).
  vm_compute. discriminate.
Defined.

(** Two requests per second allowed: of four requests of one client within a
    second, at most two are let through. *)
Lemma rate_limit_holds_witness :
  (Z.of_nat (RateLimitFallback.passed_in_window 1000 "10.0.0.1" 1005
               (RateLimitFallback.serve 2 1000 [] Scenario.burst).1) ≤ 2)%Z.
Proof.
  apply (rate_limit_holds 2 1000 ltac:(lia) Scenario.burst "10.0.0.1" 1005).
  - reflexivity.
  - intros p Hp. unfold Scenario.burst in Hp.
    repeat (apply elem_of_cons in Hp as [->|Hp]; [cbn; lia|]).
    by apply elem_of_nil in Hp.
Defined.
